(** * Smart Log Viewer: the WebSocket fan-out server

    A shallow embedding of [server/internal/websocket] (the [Connection]
    type of connection.go and the [ConnectionHub] of the hub file) and of
    [server/internal/model], with the properties of the connection
    life cycle, the drop predicate, the inbound dispatch and the hub's
    membership set.

    Conventions of the embedding.
    - A [*Connection] is an address [ptr]; the objects live in a store
      [ptr -> Connection] that the hub and the goroutines share.
    - [time.Time] is a number of nanoseconds ([Z]); every call of
      [time.Now()] is a parameter [now] of the operation that makes it.
    - A buffered Go channel is its queue, its capacity and its closed bit.
    - A method that holds [c.mu] for its whole body is one atomic function
      on the [Connection] record; the mutex itself has no field.
    - The outcome of a wire write ([ws.WriteJSON]) and of a non-blocking
      send on [h.unregister] is decided by the environment and is a
      boolean parameter of the operation.  Writes to one socket are taken
      one at a time: the overlap of two writes, which the code does not
      exclude and gorilla answers with a panic, is outside the model, and
      [None] stands for the panic of a send on a closed channel only.
    - One case of the [select] of [Run] is one step; the goroutines of the
      connections run between the steps of the loop.  The two critical
      sections of the pause and resume cases of [HandleMessages] are one
      step of the inbound task.
    - [log.Printf] calls have no effect on the state and are omitted. *)

From Stdlib Require Import ZArith String List Bool Lia.
From stdpp Require Import base option list functions gmap strings.

Local Open Scope Z_scope.

(** ** model: websocket_message.go and log.go *)

Module model.

(** [model.Log]. *)
Record Log := {
  Level : string;
  Message : string;
  Timestamp : Z
}.

(** The dynamic values that the program stores in [Data interface{}]. *)
Inductive payload :=
| DataNil
| DataString (s : string)
| DataLog (l : Log).

(** [model.WebSocketMessage]; the Go field [Type] is [Type_] here. *)
Record WebSocketMessage := {
  Type_ : string;
  Data : payload
}.

End model.

Import model.

(** ** time *)

Definition Time := Z.
Definition Duration := Z.

Definition Second : Duration := 1000000000.
Definition maxDuration : Duration := 2 ^ 63 - 1.
Definition minDuration : Duration := - 2 ^ 63.

(** [Time.Sub]: the difference as an int64 [Duration], saturated at the
    ends of the range. *)
Definition Sub (t u : Time) : Duration :=
  let d := t - u in
  if d >? maxDuration then maxDuration
  else if d <? minDuration then minDuration
  else d.

(** [time.Since(t)] evaluated when the clock reads [now]. *)
Definition Since (now t : Time) : Duration := Sub now t.

(** ** the gorilla connection, as far as the program observes it *)

Record WsConn := {
  wire : list WebSocketMessage;   (* frames written, oldest first *)
  ws_closed : bool
}.

(** [ws.WriteJSON(m)]: [up] tells whether the network takes the frame.
    The boolean of the result is [err == nil]. *)
Definition WriteJSON (up : bool) (m : WebSocketMessage) (w : WsConn) : WsConn * bool :=
  if ws_closed w then (w, false)
  else if up then ({| wire := wire w ++ [m]; ws_closed := false |}, true)
  else (w, false).

(** [ws.Close()]. *)
Definition ws_Close (w : WsConn) : WsConn :=
  {| wire := wire w; ws_closed := true |}.

(** ** Go channels of messages *)

Record Chan := {
  buf : list WebSocketMessage;    (* queued messages, oldest first *)
  cap : nat;
  chan_closed : bool
}.

Definition make_chan (n : nat) : Chan :=
  {| buf := []; cap := n; chan_closed := false |}.

(** ** connection.go *)

Record Connection := {
  ws : WsConn;
  channel : Chan;
  lastSent : Time;
  isClosed : bool;
  isPaused : bool
}.

Definition with_ws (w : WsConn) (c : Connection) : Connection :=
  {| ws := w; channel := channel c; lastSent := lastSent c;
     isClosed := isClosed c; isPaused := isPaused c |}.

Definition with_channel (ch : Chan) (c : Connection) : Connection :=
  {| ws := ws c; channel := ch; lastSent := lastSent c;
     isClosed := isClosed c; isPaused := isPaused c |}.

Definition with_lastSent (t : Time) (c : Connection) : Connection :=
  {| ws := ws c; channel := channel c; lastSent := t;
     isClosed := isClosed c; isPaused := isPaused c |}.

Definition with_isClosed (b : bool) (c : Connection) : Connection :=
  {| ws := ws c; channel := channel c; lastSent := lastSent c;
     isClosed := b; isPaused := isPaused c |}.

Definition with_isPaused (b : bool) (c : Connection) : Connection :=
  {| ws := ws c; channel := channel c; lastSent := lastSent c;
     isClosed := isClosed c; isPaused := b |}.

Definition with_buf (l : list WebSocketMessage) (ch : Chan) : Chan :=
  {| buf := l; cap := cap ch; chan_closed := chan_closed ch |}.

(** [NewConnection(ws)], called when the clock reads [now]. *)
Definition NewConnection (w : WsConn) (now : Time) : Connection :=
  {| ws := w; channel := make_chan 100; lastSent := now;
     isClosed := false; isPaused := false |}.

(** [Connection.Close].  After the flag is set, the [select] either
    receives from [c.channel] or, when no receive is possible, closes it.
    A receive is possible when a message is queued (it is taken off the
    queue and discarded) or when the channel is closed already. *)
Definition Close (c : Connection) : Connection :=
  if isClosed c then c
  else
    let c1 := with_isClosed true c in
    match buf (channel c1) with
    | _ :: rest => with_channel (with_buf rest (channel c1)) c1
    | [] =>
        if chan_closed (channel c1) then c1
        else with_channel {| buf := []; cap := cap (channel c1);
                             chan_closed := true |} c1
    end.

(** [Connection.IsClosed]. *)
Definition IsClosed (c : Connection) : bool := isClosed c.

(** [Connection.sendLog].  [None] is the run-time panic of a send on a
    closed channel. *)
Definition sendLog (message : WebSocketMessage) (now : Time) (c : Connection)
  : option Connection :=
  if isClosed c then Some c
  else if chan_closed (channel c) then None
  else if (length (buf (channel c)) <? cap (channel c))%nat then
    Some (with_lastSent now
            (with_channel (with_buf (buf (channel c) ++ [message]) (channel c)) c))
  else Some c.

(** [Connection.shouldDrop], evaluated when the clock reads [now]. *)
Definition shouldDrop (now : Time) (c : Connection) : bool :=
  if isClosed c then true
  else if isPaused c && (Since now (lastSent c) >? 10 * Second) then true
  else false.

(** [Connection.SetPaused]. *)
Definition SetPaused (paused : bool) (c : Connection) : Connection :=
  if isClosed c then c else with_isPaused paused c.

(** [Connection.IsPaused]. *)
Definition IsPaused (c : Connection) : bool := isPaused c.

Definition pingMessage : WebSocketMessage :=
  {| Type_ := "ping"; Data := DataString "heartbeat" |}.

Definition pongMessage : WebSocketMessage :=
  {| Type_ := "pong"; Data := DataString "heartbeat" |}.

(** [Connection.SendPing]; the boolean of the result is [err == nil]. *)
Definition SendPing (up : bool) (c : Connection) : Connection * bool :=
  if isClosed c then (c, false)
  else
    let (w, ok) := WriteJSON up pingMessage (ws c) in
    (with_ws w c, ok).

(** *** the inbound task: [Connection.HandleMessages] *)

(** What one [ws.ReadJSON] returns. *)
Inductive read_result :=
| ReadOk (message : WebSocketMessage)
| ReadErr.

(** The [switch message.Type] of the loop body. *)
Definition dispatch (message : WebSocketMessage) (now : Time) (up : bool)
  (c : Connection) : Connection :=
  if String.eqb (Type_ message) "ping" then
    let c1 := with_lastSent now c in
    with_ws (fst (WriteJSON up pongMessage (ws c1))) c1
  else if String.eqb (Type_ message) "pong" then
    with_lastSent now c
  else if String.eqb (Type_ message) "pause" then
    SetPaused true (with_lastSent now c)
  else if String.eqb (Type_ message) "resume" then
    SetPaused false (with_lastSent now c)
  else c.

(** One read of the inbound loop with what the clock and the network do
    during that iteration. *)
Record inbound := {
  in_read : read_result;
  in_now : Time;
  in_up : bool
}.

Inductive task_status := Running | Exited.

(** [HandleMessages] over the reads the socket delivers.  A read error
    leaves the loop, and the deferred function calls [c.Close()].  When the
    reads run out the task is still waiting in [ReadJSON]. *)
Fixpoint HandleMessages (reads : list inbound) (c : Connection)
  : Connection * task_status :=
  match reads with
  | [] => (c, Running)
  | r :: reads' =>
      match in_read r with
      | ReadErr => (Close c, Exited)
      | ReadOk message =>
          HandleMessages reads' (dispatch message (in_now r) (in_up r) c)
      end
  end.

(** *** the outbound task: [Connection.Send] *)

Inductive send_status := SendRunning | SendBlocked | SendExited.

(** The exit path of [Send]: the deferred [c.ws.Close()] and [c.Close()]. *)
Definition Send_exit (c : Connection) : Connection :=
  Close (with_ws (ws_Close (ws c)) c).

(** One turn of [for message := range c.channel]: take the oldest message
    and write it; leave on a write error or when the channel is closed and
    empty; wait when it is open and empty. *)
Definition Send_step (up : bool) (c : Connection) : Connection * send_status :=
  match buf (channel c) with
  | message :: rest =>
      let c1 := with_channel (with_buf rest (channel c)) c in
      let (w, ok) := WriteJSON up message (ws c1) in
      if ok then (with_ws w c1, SendRunning)
      else (Send_exit (with_ws w c1), SendExited)
  | [] =>
      if chan_closed (channel c) then (Send_exit c, SendExited)
      else (c, SendBlocked)
  end.

(** *** every operation on one connection *)

(** The calls that change a [Connection]: the methods, one read of the
    inbound task and one turn of the outbound task. *)
Inductive conn_op :=
| OpClose
| OpSendLog (message : WebSocketMessage) (now : Time)
| OpSetPaused (paused : bool)
| OpSendPing (up : bool)
| OpInbound (r : inbound)
| OpOutbound (up : bool).

Definition conn_step (op : conn_op) (c : Connection) : option Connection :=
  match op with
  | OpClose => Some (Close c)
  | OpSendLog message now => sendLog message now c
  | OpSetPaused paused => Some (SetPaused paused c)
  | OpSendPing up => Some (fst (SendPing up c))
  | OpInbound r => Some (fst (HandleMessages [r] c))
  | OpOutbound up => Some (fst (Send_step up c))
  end.

Fixpoint conn_run (ops : list conn_op) (c : Connection) : option Connection :=
  match ops with
  | [] => Some c
  | op :: ops' =>
      match conn_step op c with
      | Some c' => conn_run ops' c'
      | None => None
      end
  end.

(** The channel is closed only by [Close], after the flag is set. *)
Definition conn_ok (c : Connection) : Prop :=
  chan_closed (channel c) = true -> isClosed c = true.

(** Nothing was added to the queue: [l'] is what remains of [l] after some
    messages were taken from its front. *)
Definition remainder_of (l' l : list WebSocketMessage) : Prop :=
  exists k : nat, l' = drop k l.

(** ** the hub *)

Definition ptr := positive.

(** The [Connection] objects, by address. *)
Abbreviation store := (ptr -> Connection).

Definition store_ok (h : store) : Prop := forall p, conn_ok (h p).

(** A goroutine started by a broadcast,
    [if !c.IsPaused() && !c.shouldDrop() { c.sendLog(logEntry) }],
    with the call it makes next. *)
Inductive delivery_pc := AtIsPaused | AtShouldDrop | AtSendLog.

Record delivery := {
  d_conn : ptr;
  d_msg : WebSocketMessage;
  d_pc : delivery_pc
}.

Definition spawn (logEntry : WebSocketMessage) (c : ptr) : delivery :=
  {| d_conn := c; d_msg := logEntry; d_pc := AtIsPaused |}.

Definition at_pc (pc : delivery_pc) (d : delivery) : delivery :=
  {| d_conn := d_conn d; d_msg := d_msg d; d_pc := pc |}.

(** The next call of a delivery goroutine; the second component is the
    goroutine that remains, [None] when it has returned. *)
Definition delivery_step (now : Time) (d : delivery) (h : store)
  : option (store * option delivery) :=
  match d_pc d with
  | AtIsPaused =>
      if IsPaused (h (d_conn d)) then Some (h, None)
      else Some (h, Some (at_pc AtShouldDrop d))
  | AtShouldDrop =>
      if shouldDrop now (h (d_conn d)) then Some (h, None)
      else Some (h, Some (at_pc AtSendLog d))
  | AtSendLog =>
      match sendLog (d_msg d) now (h (d_conn d)) with
      | Some c' => Some (<[d_conn d := c']> h, None)
      | None => None
      end
  end.

(** The hub with everything its loop acts on.  [h.register], [h.unregister]
    and [h.Broadcast] are unbuffered: what the loop receives from them is
    the [event] of a step; [unregister_sent] lists the values that the
    loop's own non-blocking sends handed to [h.unregister]. *)
Record World := {
  heap : store;
  connections : gmap ptr bool;
  unregister_sent : list ptr;
  deliveries : list delivery
}.

(** [NewConnectionHub()], over a store. *)
Definition NewConnectionHub (h : store) : World :=
  {| heap := h; connections := ∅; unregister_sent := []; deliveries := [] |}.

(** The keys that [for connection := range h.connections] visits.  Go
    leaves the order unspecified; the sweeps below take the key list as an
    argument and their lemmas hold for every list. *)
Definition keys (m : gmap ptr bool) : list ptr := (map_to_list m).*1.

Record sweep := {
  sw_conns : gmap ptr bool;
  sw_heap : store;
  sw_drop : list ptr             (* connectionsToDrop *)
}.

(** The body of the first loop of [checkConnectionHealth], for the key
    [connection]. *)
Definition health_turn (clock : ptr -> Time) (up : ptr -> bool)
  (connection : ptr) (s : sweep) : sweep :=
  let c := sw_heap s connection in
  if IsClosed c then
    {| sw_conns := delete connection (sw_conns s);
       sw_heap := <[connection := Close c]> (sw_heap s);
       sw_drop := sw_drop s |}
  else if shouldDrop (clock connection) c then
    {| sw_conns := sw_conns s; sw_heap := sw_heap s;
       sw_drop := sw_drop s ++ [connection] |}
  else if IsPaused c then
    let (c', ok) := SendPing (up connection) c in
    if ok then
      {| sw_conns := sw_conns s;
         sw_heap := <[connection := c']> (sw_heap s);
         sw_drop := sw_drop s |}
    else
      {| sw_conns := sw_conns s;
         sw_heap := <[connection := c']> (sw_heap s);
         sw_drop := sw_drop s ++ [connection] |}
  else s.

(** The first loop of [checkConnectionHealth]. *)
Fixpoint health_sweep (clock : ptr -> Time) (up : ptr -> bool)
  (ks : list ptr) (s : sweep) : sweep :=
  match ks with
  | [] => s
  | connection :: ks' =>
      health_sweep clock up ks' (health_turn clock up connection s)
  end.

(** The second loop of [checkConnectionHealth]: a non-blocking send on
    [h.unregister] for each queued connection; [taken conn] tells whether
    a receiver takes the value, otherwise the [default] case runs. *)
Definition drop_turn (taken : ptr -> bool) (conn : ptr)
  (hs : store * list ptr) : store * list ptr :=
  if taken conn then (fst hs, snd hs ++ [conn])
  else (<[conn := Close (fst hs conn)]> (fst hs), snd hs).

Fixpoint drop_batch (taken : ptr -> bool) (connectionsToDrop : list ptr)
  (hs : store * list ptr) : store * list ptr :=
  match connectionsToDrop with
  | [] => hs
  | conn :: rest => drop_batch taken rest (drop_turn taken conn hs)
  end.

(** [ConnectionHub.checkConnectionHealth]. *)
Definition checkConnectionHealth (clock : ptr -> Time) (up taken : ptr -> bool)
  (w : World) : World :=
  let s := health_sweep clock up (keys (connections w))
             {| sw_conns := connections w; sw_heap := heap w; sw_drop := [] |} in
  let hs := drop_batch taken (sw_drop s) (sw_heap s, unregister_sent w) in
  {| heap := fst hs; connections := sw_conns s;
     unregister_sent := snd hs; deliveries := deliveries w |}.

Record filtered := {
  fl_conns : gmap ptr bool;
  fl_heap : store;
  fl_sent : list ptr;
  fl_active : list ptr           (* activeConnections *)
}.

(** The body of the filter loop of the broadcast case of [Run]. *)
Definition broadcast_turn (taken : ptr -> bool) (conn : ptr) (f : filtered)
  : filtered :=
  if IsClosed (fl_heap f conn) then
    if taken conn then
      {| fl_conns := fl_conns f; fl_heap := fl_heap f;
         fl_sent := fl_sent f ++ [conn]; fl_active := fl_active f |}
    else
      {| fl_conns := delete conn (fl_conns f);
         fl_heap := <[conn := Close (fl_heap f conn)]> (fl_heap f);
         fl_sent := fl_sent f; fl_active := fl_active f |}
  else
    {| fl_conns := fl_conns f; fl_heap := fl_heap f;
       fl_sent := fl_sent f; fl_active := fl_active f ++ [conn] |}.

(** The filter loop of the broadcast case of [Run]. *)
Fixpoint broadcast_filter (taken : ptr -> bool) (ks : list ptr) (f : filtered)
  : filtered :=
  match ks with
  | [] => f
  | conn :: ks' => broadcast_filter taken ks' (broadcast_turn taken conn f)
  end.

(** The broadcast case of [Run]: nothing when the map is empty; otherwise
    the filter loop, then one goroutine per active connection. *)
Definition broadcast (logEntry : WebSocketMessage) (taken : ptr -> bool)
  (w : World) : World :=
  if (size (connections w) =? 0)%nat then w
  else
    let f := broadcast_filter taken (keys (connections w))
               {| fl_conns := connections w; fl_heap := heap w;
                  fl_sent := unregister_sent w; fl_active := [] |} in
    {| heap := fl_heap f; connections := fl_conns f;
       unregister_sent := fl_sent f;
       deliveries := deliveries w ++ map (spawn logEntry) (fl_active f) |}.

(** What happens next in the program: one case of the [select] of [Run],
    one call of a delivery goroutine, or one operation of another
    goroutine on a connection. *)
Inductive event :=
| EvRegister (connection : ptr)
| EvUnregister (connection : ptr)
| EvHealthTick (clock : ptr -> Time) (up taken : ptr -> bool)
| EvBroadcast (logEntry : WebSocketMessage) (taken : ptr -> bool)
| EvDeliver (i : nat) (now : Time)
| EvConn (p : ptr) (op : conn_op).

Definition with_heap (h : store) (w : World) : World :=
  {| heap := h; connections := connections w;
     unregister_sent := unregister_sent w; deliveries := deliveries w |}.

(** One iteration of [ConnectionHub.Run], or one step of a goroutine
    around it.  [None] is a run-time panic. *)
Definition step (e : event) (w : World) : option World :=
  match e with
  | EvRegister connection =>
      Some {| heap := heap w;
              connections := <[connection := true]> (connections w);
              unregister_sent := unregister_sent w;
              deliveries := deliveries w |}
  | EvUnregister connection =>
      Some {| heap := <[connection := Close (heap w connection)]> (heap w);
              connections := delete connection (connections w);
              unregister_sent := unregister_sent w;
              deliveries := deliveries w |}
  | EvHealthTick clock up taken =>
      Some (checkConnectionHealth clock up taken w)
  | EvBroadcast logEntry taken =>
      Some (broadcast logEntry taken w)
  | EvDeliver i now =>
      match deliveries w !! i with
      | None => Some w
      | Some d =>
          match delivery_step now d (heap w) with
          | None => None
          | Some (h, rest) =>
              Some {| heap := h; connections := connections w;
                      unregister_sent := unregister_sent w;
                      deliveries :=
                        match rest with
                        | Some d' => <[i := d']> (deliveries w)
                        | None => delete i (deliveries w)
                        end |}
          end
      end
  | EvConn p op =>
      match conn_step op (heap w p) with
      | Some c' => Some (with_heap (<[p := c']> (heap w)) w)
      | None => None
      end
  end.

Fixpoint run (es : list event) (w : World) : option World :=
  match es with
  | [] => Some w
  | e :: es' =>
      match step e w with
      | Some w' => run es' w'
      | None => None
      end
  end.

(** *** membership as the specification words it *)

(** The event registers [p]. *)
Definition registers (e : event) (p : ptr) : bool :=
  match e with
  | EvRegister q => bool_decide (q = p)
  | _ => false
  end.

(** The event, met in world [w], is a removal of [p]: the unregister case,
    a health check that finds [p] closed, or a broadcast that finds [p]
    closed while [h.unregister] does not take it. *)
Definition unregisters (w : World) (e : event) (p : ptr) : bool :=
  match e with
  | EvUnregister q => bool_decide (q = p)
  | EvHealthTick _ _ _ => IsClosed (heap w p)
  | EvBroadcast _ taken => IsClosed (heap w p) && negb (taken p)
  | _ => false
  end.

(** Whether [p] is registered and not yet unregistered after the events
    [es], started in world [w] where its membership is [m]. *)
Fixpoint registered_not_unregistered (es : list event) (w : World)
  (p : ptr) (m : bool) : bool :=
  match es with
  | [] => m
  | e :: es' =>
      let m' := if registers e p then true
                else if unregisters w e p then false
                else m in
      match step e w with
      | Some w' => registered_not_unregistered es' w' p m'
      | None => m'
      end
  end.

(** *** what one pass does to one connection *)

(** The effect of the first loop of [checkConnectionHealth] on the
    connection it visits. *)
Definition health_visit (now : Time) (up : bool) (c : Connection) : Connection :=
  if IsClosed c then Close c
  else if shouldDrop now c then c
  else if IsPaused c then fst (SendPing up c)
  else c.

(** Whether that loop appends the connection to [connectionsToDrop]. *)
Definition health_queues (now : Time) (up : bool) (c : Connection) : bool :=
  if IsClosed c then false
  else if shouldDrop now c then true
  else if IsPaused c then negb (snd (SendPing up c))
  else false.

(** [c'] is [c] after calls of [Close] and [SendPing] only: timestamp and
    paused flag as before, nothing added to the queue, and a closed
    connection not changed at all. *)
Definition closed_or_probed (c c' : Connection) : Prop :=
  lastSent c' = lastSent c /\
  isPaused c' = isPaused c /\
  remainder_of (buf (channel c')) (buf (channel c)) /\
  (isClosed c = true -> c' = c).

(** The select cases of [Run], as opposed to the steps of the goroutines
    around it. *)
Definition hub_event (e : event) : bool :=
  match e with
  | EvRegister _ | EvUnregister _ | EvHealthTick _ _ _ | EvBroadcast _ _ => true
  | EvDeliver _ _ | EvConn _ _ => false
  end.

(** ** values used in the examples *)

Definition ws0 : WsConn := {| wire := []; ws_closed := false |}.

Definition logMessage : WebSocketMessage :=
  {| Type_ := "log";
     Data := DataLog {| Level := "INFO"; Message := "m"; Timestamp := 0 |} |}.

Definition pauseMessage : WebSocketMessage :=
  {| Type_ := "pause"; Data := DataNil |}.

Definition resumeMessage : WebSocketMessage :=
  {| Type_ := "resume"; Data := DataNil |}.

Definition otherMessage : WebSocketMessage :=
  {| Type_ := "subscribe"; Data := DataNil |}.

(** A connection just made at time 0. *)
Definition fresh : Connection := NewConnection ws0 0.

(** An open connection with one message queued. *)
Definition one_queued : Connection :=
  with_channel {| buf := [logMessage]; cap := 100; chan_closed := false |} fresh.

(** An open connection whose queue is full. *)
Definition full_queue : Connection :=
  with_channel {| buf := repeat logMessage 100; cap := 100;
                  chan_closed := false |} fresh.

(** An open connection that the client paused at time 0. *)
Definition paused_conn : Connection := with_isPaused true fresh.

(** What is left of a connection that had [logMessage] and [pingMessage]
    queued when its inbound task met a read error: the flag is set, the
    older message is gone and the channel is open. *)
Definition half_closed : Connection :=
  {| ws := ws0;
     channel := {| buf := [pingMessage]; cap := 100; chan_closed := false |};
     lastSent := 2; isClosed := true; isPaused := false |}.

(** What is left of a connection that the client paused at time 1 and
    that was closed from outside its own tasks (by the hub): the flag is
    set, the empty channel is closed, and the socket is still open. *)
Definition closed_while_paused : Connection :=
  {| ws := ws0;
     channel := {| buf := []; cap := 100; chan_closed := true |};
     lastSent := 1; isClosed := true; isPaused := true |}.

Definition all_fresh : store := fun _ => fresh.

Definition always : ptr -> bool := fun _ => true.
Definition never : ptr -> bool := fun _ => false.
Definition at_time (t : Time) : ptr -> Time := fun _ => t.

(** A hub whose only member, at address 1, was paused at time 0. *)
Definition paused_world : World :=
  {| heap := fun _ => paused_conn;
     connections := {[ 1%positive := true ]};
     unregister_sent := [];
     deliveries := [spawn logMessage 1%positive] |}.

(** A hub whose only member, at address 1, is open with one message
    queued. *)
Definition queued_world : World :=
  {| heap := fun _ => one_queued;
     connections := {[ 1%positive := true ]};
     unregister_sent := [];
     deliveries := [] |}.

Definition read_error : inbound :=
  {| in_read := ReadErr; in_now := 3; in_up := true |}.

Definition read_of (message : WebSocketMessage) (now : Time) : inbound :=
  {| in_read := ReadOk message; in_now := now; in_up := true |}.

(** ** the rest of connection.go, the handler, the generator and the client *)

(** [Connection.Send] as a whole: the turns of the loop, one network
    outcome per turn, until the task waits for a message or has left. *)
Fixpoint Send (ups : list bool) (c : Connection) : Connection * send_status :=
  match ups with
  | [] => (c, SendRunning)
  | up :: ups' =>
      match Send_step up c with
      | (c', SendRunning) => Send ups' c'
      | r => r
      end
  end.

(** The reading of the clock that an operation makes, when it makes one. *)
Definition op_time (op : conn_op) : option Time :=
  match op with
  | OpSendLog _ now => Some now
  | OpInbound r => Some (in_now r)
  | _ => None
  end.

(** The clock does not run backwards: the readings of [ops], in order,
    start at [t] or later and never decrease. *)
Fixpoint clock_monotone (t : Time) (ops : list conn_op) : Prop :=
  match ops with
  | [] => True
  | op :: ops' =>
      match op_time op with
      | Some t' => t <= t' /\ clock_monotone t' ops'
      | None => clock_monotone t ops'
      end
  end.

(** The enqueues of a batch of messages, each with its clock reading. *)
Definition enqueue_all (ms : list (WebSocketMessage * Time)) : list conn_op :=
  map (fun mt => OpSendLog (fst mt) (snd mt)) ms.

(** *** connection_handler.go *)

(** What [upgrader.Upgrade] returns. *)
Inductive upgrade :=
| UpgradeErr
| UpgradeOk (conn : WsConn).

(** The outcome of [HandleWebSocket]: the world, the value it sent on
    [hub.register] (received by the register case of [Run] at that
    moment), and whether it started the two goroutines of the
    connection. *)
Record handled := {
  hw_world : World;
  hw_register : option ptr;
  hw_started : bool
}.

(** [HandleWebSocket].  [connection] is the address of the object that
    [NewConnection] allocates; [received] tells whether the hub receives
    from [hub.register] before the five-second timer fires. *)
Definition HandleWebSocket (u : upgrade) (connection : ptr) (now : Time)
  (received : bool) (w : World) : handled :=
  match u with
  | UpgradeErr =>
      {| hw_world := w; hw_register := None; hw_started := false |}
  | UpgradeOk conn =>
      let w1 := with_heap (<[connection := NewConnection conn now]> (heap w)) w in
      if received then
        {| hw_world := w1; hw_register := Some connection; hw_started := true |}
      else
        {| hw_world :=
             with_heap (<[connection := Close (heap w1 connection)]> (heap w1)) w1;
           hw_register := None; hw_started := false |}
  end.

(** The connections that the filter loop of a broadcast finds open, in the
    order of the range. *)
Definition open_keys (w : World) : list ptr :=
  List.filter (fun p => negb (IsClosed (heap w p))) (keys (connections w)).

(** *** log_generator.go *)

Definition levels : list string := ["INFO"; "WARN"; "ERROR"]%string.

(** [GenerateMockLog(message)]; [r] is what [rand.Intn(len(levels))]
    returns and [now] what [time.Now()] returns.  [None] is the panic of
    an index out of range. *)
Definition GenerateMockLog (r : nat) (message : string) (now : Time)
  : option Log :=
  match levels !! r with
  | Some level =>
      Some {| Level := level;
              Message := String.append "This is a mock log message" message;
              Timestamp := now |}
  | None => None
  end.

(** *** the client: App.tsx *)

(** The initial value of [selectedLogLevels]. *)
Definition initialLogLevels : gset string := {["all"%string]}.

(** The updater that [toggleLogLevel(level)] passes to
    [setSelectedLogLevels]. *)
Definition toggleLogLevel (level : string) (prev : gset string) : gset string :=
  if decide (level = "all"%string) then
    if decide ("all"%string ∈ prev) then ∅ else {["all"%string]}
  else if decide ("all"%string ∈ prev) then {[level]}
  else
    let newSet := if decide (level ∈ prev) then prev ∖ {[level]}
                  else prev ∪ {[level]} in
    if decide (size newSet = 0%nat) then {["all"%string]} else newSet.

(** In every selection that has "all", "all" is alone. *)
Definition all_is_alone (s : gset string) : Prop :=
  "all"%string ∈ s -> s = {["all"%string]}.

(** The selection after a sequence of clicks on the filter buttons. *)
Definition toggle_all (clicks : list string) (s : gset string) : gset string :=
  foldl (fun acc level => toggleLogLevel level acc) s clicks.

(** [getFilteredLogs()], over any type of log entries with a [level]. *)
Definition getFilteredLogs {A : Type} (level : A -> string) (logs : list A)
  (selectedLogLevels : gset string) : list A :=
  if decide ("all"%string ∈ selectedLogLevels) then logs
  else List.filter (fun log => bool_decide (level log ∈ selectedLogLevels)) logs.

(** [handlePauseResume]: the message given to [sendMessage] and the new
    value of [isPaused]. *)
Definition handlePauseResume (isPaused : bool) : WebSocketMessage * bool :=
  let newPausedState := negb isPaused in
  (if newPausedState then {| Type_ := "pause"; Data := DataNil |}
   else {| Type_ := "resume"; Data := DataNil |},
   newPausedState).

(** The messages of [n] clicks on the pause button, each click seeing the
    state that the one before left, and the final value of [isPaused]. *)
Fixpoint press (n : nat) (isPaused : bool) : list WebSocketMessage * bool :=
  match n with
  | O => ([], isPaused)
  | S n' =>
      let (m, s) := handlePauseResume isPaused in
      let (ms, s') := press n' s in
      (m :: ms, s')
  end.

(** The reads by which the inbound task receives the messages [ms], each
    at some time and with some state of the network. *)
Definition reads_of (ms : list WebSocketMessage) (env : list (Time * bool))
  : list inbound :=
  zip_with (fun m e => {| in_read := ReadOk m; in_now := fst e;
                          in_up := snd e |}) ms env.

(** *** one goroutine through an execution *)

Definition with_deliveries (l : list delivery) (w : World) : World :=
  {| heap := heap w; connections := connections w;
     unregister_sent := unregister_sent w; deliveries := l |}.

(** The event is a call of the goroutine at index [i]. *)
Definition steps_goroutine (e : event) (i : nat) : bool :=
  match e with
  | EvDeliver j _ => bool_decide (j = i)
  | _ => false
  end.

(** The index, after the step [e] made in [w], of the goroutine that was
    at index [i]: one lower when a goroutine before it has returned. *)
Definition shift (e : event) (w : World) (i : nat) : nat :=
  match e with
  | EvDeliver j now =>
      match deliveries w !! j with
      | Some d =>
          match delivery_step now d (heap w) with
          | Some (_, None) => if (j <? i)%nat then pred i else i
          | _ => i
          end
      | None => i
      end
  | _ => i
  end.

(** The events [es] run from [w] and none of them is a call of the
    goroutine at index [i]; the result is the world reached and the index
    of that goroutine there.  [None] when a step panics or [es] has a call
    of that goroutine. *)
Fixpoint follow (es : list event) (w : World) (i : nat)
  : option (World * nat) :=
  match es with
  | [] => Some (w, i)
  | e :: es' =>
      if steps_goroutine e i then None
      else
        match step e w with
        | Some w' => follow es' w' (shift e w i)
        | None => None
        end
  end.

(** [d], at index [i], is one of the goroutines that the broadcast of
    [logEntry] made in [w] starts. *)
Definition started_by (logEntry : WebSocketMessage) (taken : ptr -> bool)
  (w : World) (i : nat) (d : delivery) : Prop :=
  (length (deliveries w) <= i)%nat /\
  deliveries (broadcast logEntry taken w) !! i = Some d.

(** The step is a call of [sendLog] for [p]: the third call of a delivery
    goroutine for [p], or a direct call. *)
Definition appends (e : event) (w : World) (p : ptr) : bool :=
  match e with
  | EvDeliver i _ =>
      match deliveries w !! i with
      | Some d =>
          match d_pc d with
          | AtSendLog => bool_decide (d_conn d = p)
          | _ => false
          end
      | None => false
      end
  | EvConn q (OpSendLog _ _) => bool_decide (q = p)
  | _ => false
  end.

(** The world after the inbound task of [p] has read [message]. *)
Definition after_read (p : ptr) (message : WebSocketMessage) (now : Time)
  (up : bool) (w : World) : World :=
  with_heap (<[p := dispatch message now up (heap w p)]> (heap w)) w.

(** A hub whose only member, at address 1, is a connection just made. *)
Definition fresh_world : World :=
  {| heap := fun _ => fresh;
     connections := {[ 1%positive := true ]};
     unregister_sent := [];
     deliveries := [] |}.

(** ** the clock *)

Lemma Since_exceeds (now t : Time) (d : Duration) :
  minDuration <= d < maxDuration ->
  (Since now t >? d) = (now - t >? d).
Proof.
  unfold Since, Sub, maxDuration, minDuration. intros [Hlo Hhi].
  destruct (Z.gtb_spec (now - t) (2 ^ 63 - 1)) as [Hbig | Hbig].
  - destruct (Z.gtb_spec (2 ^ 63 - 1) d); destruct (Z.gtb_spec (now - t) d);
      try reflexivity; lia.
  - destruct (Z.ltb_spec (now - t) (- 2 ^ 63)) as [Hsmall | Hsmall];
      [| reflexivity].
    destruct (Z.gtb_spec (- 2 ^ 63) d); destruct (Z.gtb_spec (now - t) d);
      try reflexivity; lia.
Qed.

Lemma ten_seconds_in_range : minDuration <= 10 * Second < maxDuration.
Proof. unfold minDuration, maxDuration, Second. lia. Qed.

(** ** the drop predicate *)

(** C8.  [shouldDrop] answers true exactly when the connection is closed,
    or it is paused and more than ten seconds (10 * 10^9 ns) have passed
    since its last-activity timestamp. *)
Theorem shouldDrop_iff (now : Time) (c : Connection) :
  shouldDrop now c = true <->
  isClosed c = true \/
  (isPaused c = true /\ now - lastSent c > 10 * Second).
Proof.
  unfold shouldDrop.
  rewrite (Since_exceeds _ _ _ ten_seconds_in_range).
  destruct (isClosed c), (isPaused c); simpl;
    destruct (Z.gtb_spec (now - lastSent c) (10 * Second)); split;
    try (intros; discriminate); try (intros _; auto; fail);
    try (intros [? | [? ?]]; (discriminate || lia || reflexivity)).
  intros _. right. split; [reflexivity | lia].
Qed.

(** ** close *)

Lemma Close_isClosed (c : Connection) : isClosed (Close c) = true.
Proof.
  unfold Close. destruct (isClosed c) eqn:E; [exact E |].
  simpl. destruct (buf (channel c)); [destruct (chan_closed (channel c)) |];
    reflexivity.
Qed.

Lemma Close_closed_id (c : Connection) : isClosed c = true -> Close c = c.
Proof. intros H. unfold Close. rewrite H. reflexivity. Qed.

(** A second call changes nothing. *)
Lemma Close_idempotent (c : Connection) : Close (Close c) = Close c.
Proof. apply Close_closed_id, Close_isClosed. Qed.

(** With an empty open queue the channel is closed. *)
Lemma Close_empty_queue (c : Connection) :
  isClosed c = false -> buf (channel c) = [] ->
  chan_closed (channel (Close c)) = true.
Proof.
  intros Hc Hb. unfold Close. rewrite Hc. simpl. rewrite Hb.
  destruct (chan_closed (channel c)) eqn:E; simpl; [exact E | reflexivity].
Qed.

(** With a message queued the [select] takes the receive case: the oldest
    message is discarded and the channel is left as it was. *)
Lemma Close_queued (c : Connection) (m : WebSocketMessage)
  (rest : list WebSocketMessage) :
  isClosed c = false -> buf (channel c) = m :: rest ->
  buf (channel (Close c)) = rest /\
  chan_closed (channel (Close c)) = chan_closed (channel c).
Proof.
  intros Hc Hb. unfold Close. rewrite Hc. simpl. rewrite Hb. simpl. auto.
Qed.

Lemma Close_frame (c : Connection) :
  ws (Close c) = ws c /\ lastSent (Close c) = lastSent c /\
  isPaused (Close c) = isPaused c /\
  cap (channel (Close c)) = cap (channel c).
Proof.
  unfold Close. destruct (isClosed c); [auto |]. simpl.
  destruct (buf (channel c)); [destruct (chan_closed (channel c)) |];
    simpl; auto.
Qed.

Lemma Close_remainder (c : Connection) :
  remainder_of (buf (channel (Close c))) (buf (channel c)).
Proof.
  unfold Close. destruct (isClosed c); [exists 0%nat; reflexivity |]. simpl.
  destruct (buf (channel c)) as [| m rest] eqn:E.
  - destruct (chan_closed (channel c)); simpl; try rewrite E;
      exists 0%nat; reflexivity.
  - simpl. exists 1%nat. reflexivity.
Qed.

Lemma Close_ok (c : Connection) : conn_ok c -> conn_ok (Close c).
Proof. intros _ _. apply Close_isClosed. Qed.

(** C2, at the failing input.  [Close] of an open connection with one
    message queued sets the flag and discards the message, and leaves the
    channel open; the outbound task then waits on the empty open channel,
    and the second [Close] changes nothing. *)
Theorem Close_with_queued_message_leaves_channel_open :
  isClosed one_queued = false /\
  buf (channel one_queued) = [logMessage] /\
  isClosed (Close one_queued) = true /\
  buf (channel (Close one_queued)) = [] /\
  chan_closed (channel (Close one_queued)) = false /\
  Send_step true (Close one_queued) = (Close one_queued, SendBlocked) /\
  Close (Close one_queued) = Close one_queued.
Proof. repeat split. Qed.

(** ** what the operations keep *)

Lemma remainder_of_refl (l : list WebSocketMessage) : remainder_of l l.
Proof. exists 0%nat. reflexivity. Qed.

Lemma remainder_of_tail (m : WebSocketMessage) (l : list WebSocketMessage) :
  remainder_of l (m :: l).
Proof. exists 1%nat. reflexivity. Qed.

Lemma remainder_of_trans (l1 l2 l3 : list WebSocketMessage) :
  remainder_of l1 l2 -> remainder_of l2 l3 -> remainder_of l1 l3.
Proof.
  intros [j Hj] [k Hk]. exists (k + j)%nat. subst. apply drop_drop.
Qed.

Lemma remainder_of_length (l' l : list WebSocketMessage) :
  remainder_of l' l -> (length l' <= length l)%nat.
Proof. intros [k ->]. rewrite length_drop. lia. Qed.

Create HintDb conn.
#[local] Hint Resolve remainder_of_refl remainder_of_tail : conn.

Lemma dispatch_frame (message : WebSocketMessage) (now : Time) (up : bool)
  (c : Connection) :
  isClosed (dispatch message now up c) = isClosed c /\
  channel (dispatch message now up c) = channel c.
Proof.
  unfold dispatch, SetPaused.
  repeat match goal with
         | |- context [String.eqb ?a ?b] => destruct (String.eqb a b)
         end; simpl; auto;
    destruct (isClosed c) eqn:E; simpl; auto.
Qed.

Lemma SendPing_frame (up : bool) (c : Connection) :
  isClosed (fst (SendPing up c)) = isClosed c /\
  isPaused (fst (SendPing up c)) = isPaused c /\
  channel (fst (SendPing up c)) = channel c /\
  lastSent (fst (SendPing up c)) = lastSent c.
Proof.
  unfold SendPing. destruct (isClosed c) eqn:E; simpl; [auto |].
  destruct (WriteJSON up pingMessage (ws c)); simpl; auto.
Qed.

Lemma Send_exit_closed (c : Connection) :
  isClosed c = true -> isClosed (Send_exit c) = true /\
                       channel (Send_exit c) = channel c.
Proof.
  intros H. unfold Send_exit. rewrite Close_closed_id by exact H. auto.
Qed.

(** On a closed connection every operation keeps the flag and the state of
    the channel, and adds nothing to the queue. *)
Lemma conn_step_closed (op : conn_op) (c c' : Connection) :
  isClosed c = true -> conn_step op c = Some c' ->
  isClosed c' = true /\
  chan_closed (channel c') = chan_closed (channel c) /\
  remainder_of (buf (channel c')) (buf (channel c)).
Proof.
  intros Hc Hstep. destruct op; simpl in Hstep.
  - injection Hstep as <-. rewrite Close_closed_id by exact Hc.
    auto with conn.
  - unfold sendLog in Hstep. rewrite Hc in Hstep. injection Hstep as <-.
    auto with conn.
  - injection Hstep as <-. unfold SetPaused. rewrite Hc. auto with conn.
  - injection Hstep as <-.
    destruct (SendPing_frame up c) as (H1 & _ & H2 & _).
    rewrite H1, H2. auto with conn.
  - injection Hstep as <-. destruct (in_read r); simpl.
    + destruct (dispatch_frame message (in_now r) (in_up r) c) as [H1 H2].
      rewrite H1, H2. auto with conn.
    + rewrite Close_closed_id by exact Hc. auto with conn.
  - injection Hstep as <-. unfold Send_step.
    destruct (buf (channel c)) as [| m rest] eqn:Eb.
    + destruct (chan_closed (channel c)) eqn:Ec; simpl.
      * destruct (Send_exit_closed c Hc) as [H1 H2].
        rewrite H1, H2, Eb. auto with conn.
      * rewrite Eb. auto with conn.
    + simpl. destruct (WriteJSON up m (ws c)) as [w [|]]; simpl.
      * auto with conn.
      * unfold Send_exit. simpl. rewrite Close_closed_id by exact Hc.
        simpl. auto with conn.
Qed.

Lemma conn_run_closed (ops : list conn_op) (c c' : Connection) :
  isClosed c = true -> conn_run ops c = Some c' ->
  isClosed c' = true /\
  chan_closed (channel c') = chan_closed (channel c) /\
  remainder_of (buf (channel c')) (buf (channel c)).
Proof.
  revert c. induction ops as [| op ops IH]; intros c Hc Hrun; simpl in Hrun.
  - injection Hrun as <-. auto with conn.
  - destruct (conn_step op c) as [c1 |] eqn:E; [| discriminate].
    destruct (conn_step_closed op c c1 Hc E) as (H1 & H2 & H3).
    destruct (IH c1 H1 Hrun) as (H4 & H5 & H6).
    split; [exact H4 |]. split; [congruence |].
    eapply remainder_of_trans; eassumption.
Qed.

(** Every operation keeps [conn_ok], and on an [conn_ok] connection none
    panics. *)
Lemma conn_step_ok (op : conn_op) (c : Connection) :
  conn_ok c -> exists c', conn_step op c = Some c' /\ conn_ok c'.
Proof.
  intros Hok. destruct (isClosed c) eqn:Hc.
  - assert (exists c', conn_step op c = Some c') as [c' Hc'].
    { destruct op; simpl; eauto. unfold sendLog. rewrite Hc. eauto. }
    exists c'. split; [exact Hc' |].
    destruct (conn_step_closed op c c' Hc Hc') as (H1 & _ & _).
    intros _. exact H1.
  - assert (chan_closed (channel c) = false) as Hch.
    { destruct (chan_closed (channel c)) eqn:E; [| reflexivity].
      specialize (Hok E). congruence. }
    destruct op; simpl.
    + eexists; split; [reflexivity | apply Close_ok, Hok].
    + unfold sendLog. rewrite Hc, Hch.
      destruct (length (buf (channel c)) <? cap (channel c))%nat;
        eexists; (split; [reflexivity |]); [| exact Hok].
      intros H. simpl in H. congruence.
    + eexists; split; [reflexivity |]. unfold SetPaused. rewrite Hc.
      intros H. simpl in H. congruence.
    + eexists; split; [reflexivity |].
      destruct (SendPing_frame up c) as (H1 & _ & H2 & _).
      unfold conn_ok. rewrite H1, H2. exact Hok.
    + eexists; split; [reflexivity |]. destruct (in_read r); simpl.
      * destruct (dispatch_frame message (in_now r) (in_up r) c) as [H1 H2].
        unfold conn_ok. rewrite H1, H2. exact Hok.
      * apply Close_ok, Hok.
    + eexists; split; [reflexivity |]. unfold Send_step.
      destruct (buf (channel c)) as [| m rest] eqn:Eb.
      * rewrite Hch. simpl. exact Hok.
      * simpl. destruct (WriteJSON up m (ws c)) as [w [|]]; simpl.
        -- intros H. simpl in H. congruence.
        -- unfold Send_exit. apply Close_ok. intros H. simpl in H. congruence.
Qed.

Lemma NewConnection_ok (w : WsConn) (now : Time) :
  conn_ok (NewConnection w now).
Proof. intros H. discriminate H. Qed.

(** Every connection reached from [NewConnection] is [conn_ok], and no
    sequence of operations on it panics. *)
Lemma conn_run_ok (ops : list conn_op) (c : Connection) :
  conn_ok c -> exists c', conn_run ops c = Some c' /\ conn_ok c'.
Proof.
  revert c. induction ops as [| op ops IH]; intros c Hok; simpl.
  - eauto.
  - destruct (conn_step_ok op c Hok) as (c1 & E & Hok1). rewrite E.
    apply IH, Hok1.
Qed.

Lemma conn_step_closed_total (op : conn_op) (c : Connection) :
  isClosed c = true -> exists c', conn_step op c = Some c'.
Proof.
  intros Hc. destruct op; simpl; eauto. unfold sendLog. rewrite Hc. eauto.
Qed.

(** C3, as amended.  Once the flag is set it stays set under every
    sequence of operations, none of them fails, and none adds a message to
    the outbound queue: what the queue holds afterwards is what remained of
    it. *)
Theorem closed_is_permanent_and_queue_not_written
  (ops : list conn_op) (c : Connection) :
  isClosed c = true ->
  exists c', conn_run ops c = Some c' /\
             isClosed c' = true /\
             remainder_of (buf (channel c')) (buf (channel c)).
Proof.
  intros Hc.
  assert (exists c', conn_run ops c = Some c') as [c' Hrun].
  { revert c Hc. induction ops as [| op ops IH]; intros c Hc; simpl.
    - eauto.
    - destruct (conn_step_closed_total op c Hc) as [c1 E]. rewrite E.
      apply IH. apply (conn_step_closed op c c1 Hc E). }
  exists c'. split; [exact Hrun |].
  destruct (conn_run_closed ops c c' Hc Hrun) as (H1 & _ & H2). auto.
Qed.

Lemma closed_is_permanent_and_queue_not_written_witness :
  isClosed half_closed = true /\
  exists c',
    conn_run [OpSendLog logMessage 4; OpInbound (read_of pauseMessage 5);
              OpOutbound true; OpSendLog logMessage 6; OpClose] half_closed
      = Some c' /\
    isClosed c' = true /\
    remainder_of (buf (channel c')) (buf (channel half_closed)).
Proof.
  split; [reflexivity |].
  apply (closed_is_permanent_and_queue_not_written _ half_closed).
  reflexivity.
Defined.

(** C3, the counterexample.  [half_closed] is reached from a new
    connection by two enqueues and a read error of the inbound task; its
    flag is set; the next turn of the outbound task takes [pingMessage]
    from the queue and writes it to the wire, so the queue is read after
    closed=true. *)
Lemma closed_queue_is_still_read :
  conn_run [OpSendLog logMessage 1; OpSendLog pingMessage 2;
            OpInbound read_error] fresh = Some half_closed /\
  isClosed half_closed = true /\
  buf (channel half_closed) = [pingMessage] /\
  buf (channel (fst (Send_step true half_closed))) = [] /\
  wire (ws (fst (Send_step true half_closed))) = [pingMessage] /\
  snd (Send_step true half_closed) = SendRunning.
Proof. repeat split. Qed.

(** ** enqueueing *)

Lemma conn_ok_open (c : Connection) :
  conn_ok c -> isClosed c = false -> chan_closed (channel c) = false.
Proof.
  intros Hok Hc. destruct (chan_closed (channel c)) eqn:E; [| reflexivity].
  specialize (Hok E). congruence.
Qed.

Lemma sendLog_closed (message : WebSocketMessage) (now : Time) (c : Connection) :
  isClosed c = true -> sendLog message now c = Some c.
Proof. intros H. unfold sendLog. rewrite H. reflexivity. Qed.

Lemma sendLog_full (message : WebSocketMessage) (now : Time) (c : Connection) :
  isClosed c = false -> chan_closed (channel c) = false ->
  (cap (channel c) <= length (buf (channel c)))%nat ->
  sendLog message now c = Some c.
Proof.
  intros H1 H2 H3. unfold sendLog. rewrite H1, H2.
  destruct (Nat.ltb_spec (length (buf (channel c))) (cap (channel c)));
    [lia | reflexivity].
Qed.

Lemma sendLog_room (message : WebSocketMessage) (now : Time) (c : Connection) :
  isClosed c = false -> chan_closed (channel c) = false ->
  (length (buf (channel c)) < cap (channel c))%nat ->
  sendLog message now c =
  Some (with_lastSent now
          (with_channel (with_buf (buf (channel c) ++ [message]) (channel c)) c)).
Proof.
  intros H1 H2 H3. unfold sendLog. rewrite H1, H2.
  destruct (Nat.ltb_spec (length (buf (channel c))) (cap (channel c)));
    [reflexivity | lia].
Qed.

(** C5.  [sendLog] on a closed connection changes nothing; on an open
    connection with a full queue it drops the message and changes nothing
    (flags, timestamp and queue as before); on an open connection with room
    it appends the message to the queue and sets the last-activity
    timestamp to the current time, and changes nothing else. *)
Theorem sendLog_closed_full_or_appended
  (message : WebSocketMessage) (now : Time) (c : Connection) :
  conn_ok c ->
  (isClosed c = true -> sendLog message now c = Some c) /\
  (isClosed c = false ->
   (cap (channel c) <= length (buf (channel c)))%nat ->
   sendLog message now c = Some c) /\
  (isClosed c = false ->
   (length (buf (channel c)) < cap (channel c))%nat ->
   exists c', sendLog message now c = Some c' /\
              buf (channel c') = buf (channel c) ++ [message] /\
              lastSent c' = now /\
              isClosed c' = false /\
              isPaused c' = isPaused c /\
              cap (channel c') = cap (channel c) /\
              chan_closed (channel c') = false /\
              ws c' = ws c).
Proof.
  intros Hok. split; [apply sendLog_closed |]. split.
  - intros Hc Hfull. apply sendLog_full; auto using conn_ok_open.
  - intros Hc Hroom. eexists. split.
    + apply sendLog_room; auto using conn_ok_open.
    + simpl. repeat split; auto using conn_ok_open.
Qed.

Lemma sendLog_closed_full_or_appended_witness :
  conn_ok half_closed /\ conn_ok full_queue /\ conn_ok one_queued /\
  sendLog logMessage 7 half_closed = Some half_closed /\
  sendLog logMessage 7 full_queue = Some full_queue /\
  exists c', sendLog logMessage 7 one_queued = Some c' /\
             buf (channel c') = [logMessage; logMessage] /\
             lastSent c' = 7.
Proof.
  assert (conn_ok half_closed) as H1 by (intros _; reflexivity).
  assert (conn_ok full_queue) as H2 by (intros H; discriminate H).
  assert (conn_ok one_queued) as H3 by (intros H; discriminate H).
  split; [exact H1 |]. split; [exact H2 |]. split; [exact H3 |].
  split.
  { apply (proj1 (sendLog_closed_full_or_appended logMessage 7 half_closed H1)).
    reflexivity. }
  split.
  { apply (proj1 (proj2
             (sendLog_closed_full_or_appended logMessage 7 full_queue H2))).
    - reflexivity.
    - change (100 <= length (repeat logMessage 100))%nat.
      rewrite repeat_length. lia. }
  destruct (sendLog_closed_full_or_appended logMessage 7 one_queued H3)
    as (_ & _ & H).
  destruct H as (c' & E1 & E2 & E3 & _).
  - reflexivity.
  - simpl. lia.
  - exists c'. auto.
Defined.

(** ** the liveness probe *)

Lemma shouldDrop_fields (now : Time) (c c' : Connection) :
  isClosed c' = isClosed c -> isPaused c' = isPaused c ->
  lastSent c' = lastSent c -> shouldDrop now c' = shouldDrop now c.
Proof. intros H1 H2 H3. unfold shouldDrop. rewrite H1, H2, H3. reflexivity. Qed.

Lemma SendPing_wire (up : bool) (c : Connection) :
  snd (SendPing up c) = true ->
  wire (ws (fst (SendPing up c))) = wire (ws c) ++ [pingMessage].
Proof.
  unfold SendPing, WriteJSON. destruct (isClosed c); simpl; [discriminate |].
  destruct (ws_closed (ws c)); simpl; [discriminate |].
  destruct up; simpl; [reflexivity | discriminate].
Qed.

Lemma SendPing_succeeds (c : Connection) :
  isClosed c = false -> ws_closed (ws c) = false ->
  snd (SendPing true c) = true.
Proof.
  intros H1 H2. unfold SendPing, WriteJSON. rewrite H1, H2. reflexivity.
Qed.

(** ** the inbound dispatch *)

(** C7, as amended.  The loop body dispatches on [message.Type]: ping sets
    the timestamp and writes a pong (the frame reaches the wire when the
    socket is open and the network takes it; a failed write changes
    nothing else and is no error); pong sets the timestamp only; pause and
    resume set the timestamp and, unless the connection is closed already,
    set the paused flag to true and to false; any other discriminant
    changes nothing; a read error ends the loop and calls [Close]. *)
Theorem dispatch_by_discriminant
  (message : WebSocketMessage) (now : Time) (up : bool) (c : Connection) :
  let c' := dispatch message now up c in
  (Type_ message = "ping" ->
   lastSent c' = now /\
   ws c' = fst (WriteJSON up pongMessage (ws c)) /\
   (up = true -> ws_closed (ws c) = false ->
    wire (ws c') = wire (ws c) ++ [pongMessage]) /\
   isPaused c' = isPaused c /\ isClosed c' = isClosed c /\
   channel c' = channel c) /\
  (Type_ message = "pong" -> c' = with_lastSent now c) /\
  (Type_ message = "pause" ->
   lastSent c' = now /\
   isPaused c' = (if isClosed c then isPaused c else true) /\
   isClosed c' = isClosed c /\ channel c' = channel c /\ ws c' = ws c) /\
  (Type_ message = "resume" ->
   lastSent c' = now /\
   isPaused c' = (if isClosed c then isPaused c else false) /\
   isClosed c' = isClosed c /\ channel c' = channel c /\ ws c' = ws c) /\
  (Type_ message <> "ping" -> Type_ message <> "pong" ->
   Type_ message <> "pause" -> Type_ message <> "resume" -> c' = c) /\
  (forall reads,
     HandleMessages
       ({| in_read := ReadOk message; in_now := now; in_up := up |} :: reads) c
     = HandleMessages reads c') /\
  (forall reads,
     HandleMessages
       ({| in_read := ReadErr; in_now := now; in_up := up |} :: reads) c
     = (Close c, Exited)).
Proof.
  intros c'. subst c'. unfold dispatch.
  split; [| split; [| split; [| split; [| split; [| split]]]]].
  - intros ->. simpl. repeat split; auto.
    intros -> Hopen. unfold WriteJSON. rewrite Hopen. reflexivity.
  - intros ->. reflexivity.
  - intros ->. simpl. unfold SetPaused. simpl.
    destruct (isClosed c) eqn:E; simpl; auto.
  - intros ->. simpl. unfold SetPaused. simpl.
    destruct (isClosed c) eqn:E; simpl; auto.
  - intros H1 H2 H3 H4.
    apply String.eqb_neq in H1, H2, H3, H4. rewrite H1, H2, H3, H4.
    reflexivity.
  - reflexivity.
  - reflexivity.
Qed.

Lemma dispatch_by_discriminant_witness :
  lastSent (dispatch pingMessage 9 true fresh) = 9 /\
  wire (ws (dispatch pingMessage 9 true fresh)) = [pongMessage] /\
  dispatch pongMessage 9 true fresh = with_lastSent 9 fresh /\
  isPaused (dispatch pauseMessage 9 true fresh) = true /\
  isPaused (dispatch resumeMessage 9 true paused_conn) = false /\
  dispatch otherMessage 9 true fresh = fresh /\
  dispatch logMessage 9 true fresh = fresh.
Proof.
  pose proof (dispatch_by_discriminant pingMessage 9 true fresh) as Hping.
  pose proof (dispatch_by_discriminant pongMessage 9 true fresh) as Hpong.
  pose proof (dispatch_by_discriminant pauseMessage 9 true fresh) as Hpause.
  pose proof (dispatch_by_discriminant resumeMessage 9 true paused_conn)
    as Hresume.
  pose proof (dispatch_by_discriminant otherMessage 9 true fresh) as Hother.
  pose proof (dispatch_by_discriminant logMessage 9 true fresh) as Hlog.
  cbv zeta in *.
  destruct Hping as (Hping & _). destruct (Hping eq_refl) as (P1 & _ & P2 & _).
  destruct Hpong as (_ & Hpong & _).
  destruct Hpause as (_ & _ & Hpause & _).
  destruct (Hpause eq_refl) as (_ & P3 & _).
  destruct Hresume as (_ & _ & _ & Hresume & _).
  destruct (Hresume eq_refl) as (_ & P4 & _).
  destruct Hother as (_ & _ & _ & _ & Hother & _).
  destruct Hlog as (_ & _ & _ & _ & Hlog & _).
  split; [exact P1 |]. split; [exact (P2 eq_refl eq_refl) |].
  split; [exact (Hpong eq_refl) |]. split; [exact P3 |].
  split; [exact P4 |].
  split; [apply Hother | apply Hlog]; intros H; discriminate H.
Defined.

(** C7, the counterexample.  [closed_while_paused] is reached from a new
    connection by a pause envelope and a [Close] made by the hub; its
    socket is still open, so its inbound task can still read.  A resume
    envelope received then moves the timestamp and leaves paused=true, and
    a pause envelope received by a closed connection that is not paused
    leaves paused=false. *)
Lemma pause_and_resume_on_closed_connection_are_not_applied :
  conn_run [OpInbound (read_of pauseMessage 1); OpClose] fresh
    = Some closed_while_paused /\
  ws_closed (ws closed_while_paused) = false /\
  isClosed closed_while_paused = true /\
  isPaused closed_while_paused = true /\
  Type_ resumeMessage = "resume" /\
  lastSent (dispatch resumeMessage 5 true closed_while_paused) = 5 /\
  isPaused (dispatch resumeMessage 5 true closed_while_paused) = true /\
  conn_run [OpClose] fresh = Some (Close fresh) /\
  isPaused (Close fresh) = false /\
  Type_ pauseMessage = "pause" /\
  isPaused (dispatch pauseMessage 5 true (Close fresh)) = false.
Proof. repeat split. Qed.

(** ** the sweeps of the hub *)

Lemma closed_or_probed_refl (c : Connection) : closed_or_probed c c.
Proof. repeat split; auto with conn. Qed.

Lemma closed_or_probed_trans (c1 c2 c3 : Connection) :
  closed_or_probed c1 c2 -> closed_or_probed c2 c3 -> closed_or_probed c1 c3.
Proof.
  intros (A1 & A2 & A3 & A4) (B1 & B2 & B3 & B4).
  split; [congruence |]. split; [congruence |].
  split; [eapply remainder_of_trans; eassumption |].
  intros H. rewrite <- (A4 H). apply B4. rewrite (A4 H). exact H.
Qed.

Lemma closed_or_probed_Close (c : Connection) : closed_or_probed c (Close c).
Proof.
  destruct (Close_frame c) as (_ & H1 & H2 & _).
  repeat split; auto using Close_remainder, Close_closed_id.
Qed.

Lemma closed_or_probed_SendPing (up : bool) (c : Connection) :
  closed_or_probed c (fst (SendPing up c)).
Proof.
  destruct (SendPing_frame up c) as (_ & H1 & H2 & H3).
  split; [exact H3 |]. split; [exact H1 |].
  split; [rewrite H2; apply remainder_of_refl |].
  intros H. unfold SendPing. rewrite H. reflexivity.
Qed.

Lemma closed_or_probed_isClosed (c c' : Connection) :
  closed_or_probed c c' -> isClosed c = true -> isClosed c' = true.
Proof. intros (_ & _ & _ & H) Hc. rewrite (H Hc). exact Hc. Qed.

Lemma health_visit_closed_or_probed (now : Time) (up : bool) (c : Connection) :
  closed_or_probed c (health_visit now up c).
Proof.
  unfold health_visit.
  destruct (IsClosed c); [apply closed_or_probed_Close |].
  destruct (shouldDrop now c); [apply closed_or_probed_refl |].
  destruct (IsPaused c);
    [apply closed_or_probed_SendPing | apply closed_or_probed_refl].
Qed.

Lemma health_visit_isClosed (now : Time) (up : bool) (c : Connection) :
  isClosed (health_visit now up c) = isClosed c.
Proof.
  unfold health_visit, IsClosed.
  destruct (isClosed c) eqn:E; [apply Close_isClosed |].
  destruct (shouldDrop now c); [exact E |].
  destruct (IsPaused c); [| exact E].
  rewrite (proj1 (SendPing_frame up c)). exact E.
Qed.

Section health_sweep.

Variable clock : ptr -> Time.
Variable up : ptr -> bool.

(** One turn of the first loop, field by field. *)
Lemma health_turn_conns (q : ptr) (s : sweep) :
  sw_conns (health_turn clock up q s) =
  if IsClosed (sw_heap s q) then delete q (sw_conns s) else sw_conns s.
Proof.
  unfold health_turn. destruct (IsClosed (sw_heap s q)); [reflexivity |].
  destruct (shouldDrop (clock q) (sw_heap s q)); [reflexivity |].
  destruct (IsPaused (sw_heap s q)); [| reflexivity].
  destruct (SendPing (up q) (sw_heap s q)) as [c' [|]]; reflexivity.
Qed.

Lemma health_turn_heap (q p : ptr) (s : sweep) :
  sw_heap (health_turn clock up q s) p =
  if decide (q = p) then health_visit (clock q) (up q) (sw_heap s q)
  else sw_heap s p.
Proof.
  unfold health_turn, health_visit.
  destruct (IsClosed (sw_heap s q)); simpl.
  { unfold insert, fn_insert. destruct (decide (q = p)); reflexivity. }
  destruct (shouldDrop (clock q) (sw_heap s q)); simpl.
  { destruct (decide (q = p)); [subst |]; reflexivity. }
  destruct (IsPaused (sw_heap s q)); simpl.
  - destruct (SendPing (up q) (sw_heap s q)) as [c' [|]]; simpl;
      unfold insert, fn_insert; destruct (decide (q = p)); reflexivity.
  - destruct (decide (q = p)); [subst |]; reflexivity.
Qed.

Lemma health_turn_drop (q : ptr) (s : sweep) :
  sw_drop (health_turn clock up q s) =
  if health_queues (clock q) (up q) (sw_heap s q) then sw_drop s ++ [q]
  else sw_drop s.
Proof.
  unfold health_turn, health_queues.
  destruct (IsClosed (sw_heap s q)); [reflexivity |].
  destruct (shouldDrop (clock q) (sw_heap s q)); [reflexivity |].
  destruct (IsPaused (sw_heap s q)); [| reflexivity].
  destruct (SendPing (up q) (sw_heap s q)) as [c' [|]]; reflexivity.
Qed.

Lemma health_turn_isClosed (q p : ptr) (s : sweep) :
  isClosed (sw_heap (health_turn clock up q s) p) = isClosed (sw_heap s p).
Proof.
  rewrite health_turn_heap. destruct (decide (q = p)) as [-> |];
    [apply health_visit_isClosed | reflexivity].
Qed.

Lemma health_sweep_isClosed (ks : list ptr) (s : sweep) (p : ptr) :
  isClosed (sw_heap (health_sweep clock up ks s) p) = isClosed (sw_heap s p).
Proof.
  revert s. induction ks as [| q ks IH]; intros s; simpl; [reflexivity |].
  rewrite IH. apply health_turn_isClosed.
Qed.

(** A key that the loop visits and finds closed is deleted. *)
Lemma health_sweep_deletes_closed (ks : list ptr) (s : sweep) (p : ptr) :
  p ∈ ks -> isClosed (sw_heap s p) = true ->
  sw_conns (health_sweep clock up ks s) !! p = None.
Proof.
  revert s. induction ks as [| q ks IH]; intros s Hin Hc; simpl.
  - inversion Hin.
  - destruct (decide (p ∈ ks)) as [Hks | Hks].
    + apply IH; [exact Hks |]. rewrite health_turn_isClosed. exact Hc.
    + assert (p = q) as -> by (inversion Hin; subst; tauto).
      clear IH. revert Hks.
      assert (sw_conns (health_turn clock up q s) !! q = None) as H0.
      { rewrite health_turn_conns. unfold IsClosed. rewrite Hc.
        apply lookup_delete_eq. }
      revert H0. generalize (health_turn clock up q s). clear.
      induction ks as [| r ks IH]; intros s H0 Hks; simpl; [exact H0 |].
      apply IH.
      * rewrite health_turn_conns.
        destruct (IsClosed (sw_heap s r)); [| exact H0].
        rewrite lookup_delete_ne; [exact H0 |].
        intros ->. apply Hks. left.
      * intros H. apply Hks. right. exact H.
Qed.

(** The loop deletes nothing else. *)
Lemma health_sweep_keeps (ks : list ptr) (s : sweep) (p : ptr) :
  isClosed (sw_heap s p) = false \/ p ∉ ks ->
  sw_conns (health_sweep clock up ks s) !! p = sw_conns s !! p.
Proof.
  revert s. induction ks as [| q ks IH]; intros s H; simpl; [reflexivity |].
  rewrite IH.
  - rewrite health_turn_conns.
    destruct (IsClosed (sw_heap s q)) eqn:E; [| reflexivity].
    apply lookup_delete_ne. intros ->.
    destruct H as [H | H]; [unfold IsClosed in E; congruence |].
    apply H. left.
  - rewrite health_turn_isClosed.
    destruct H as [H | H]; [left; exact H | right].
    intros Hin. apply H. right. exact Hin.
Qed.

Lemma health_sweep_heap_other (ks : list ptr) (s : sweep) (p : ptr) :
  p ∉ ks -> sw_heap (health_sweep clock up ks s) p = sw_heap s p.
Proof.
  revert s. induction ks as [| q ks IH]; intros s H; simpl; [reflexivity |].
  rewrite IH by (intros Hin; apply H; right; exact Hin).
  rewrite health_turn_heap.
  destruct (decide (q = p)) as [-> |]; [| reflexivity].
  exfalso. apply H. left.
Qed.

(** A key visited once holds what its visit made of it. *)
Lemma health_sweep_heap_visit (ks : list ptr) (s : sweep) (p : ptr) :
  NoDup ks -> p ∈ ks ->
  sw_heap (health_sweep clock up ks s) p =
  health_visit (clock p) (up p) (sw_heap s p).
Proof.
  revert s. induction ks as [| q ks IH]; intros s Hnd Hin; simpl.
  - inversion Hin.
  - inversion Hnd as [| ? ? Hq Hnd']; subst.
    destruct (decide (q = p)) as [-> | Hne].
    + rewrite health_sweep_heap_other by exact Hq.
      rewrite health_turn_heap. destruct (decide (p = p)); [reflexivity |].
      congruence.
    + rewrite IH; [| exact Hnd' | inversion Hin; subst; congruence].
      rewrite health_turn_heap.
      destruct (decide (q = p)); [congruence | reflexivity].
Qed.

Lemma health_sweep_closed_or_probed (ks : list ptr) (s : sweep) (p : ptr) :
  closed_or_probed (sw_heap s p) (sw_heap (health_sweep clock up ks s) p).
Proof.
  revert s. induction ks as [| q ks IH]; intros s; simpl.
  - apply closed_or_probed_refl.
  - eapply closed_or_probed_trans; [| apply IH].
    rewrite health_turn_heap. destruct (decide (q = p)) as [-> |].
    + apply health_visit_closed_or_probed.
    + apply closed_or_probed_refl.
Qed.

(** The connections queued by the loop. *)
Lemma health_sweep_drop (ks : list ptr) (s : sweep) (p : ptr) :
  NoDup ks ->
  p ∈ sw_drop (health_sweep clock up ks s) <->
  p ∈ sw_drop s \/
  (p ∈ ks /\ health_queues (clock p) (up p) (sw_heap s p) = true).
Proof.
  revert s. induction ks as [| q ks IH]; intros s Hnd; simpl.
  - split; [auto |]. intros [H | [H _]]; [exact H | inversion H].
  - inversion Hnd as [| ? ? Hq Hnd']; subst.
    rewrite (IH _ Hnd'). rewrite health_turn_drop.
    assert (forall r, r ∈ ks ->
              sw_heap (health_turn clock up q s) r = sw_heap s r) as Hsame.
    { intros r Hr. rewrite health_turn_heap.
      destruct (decide (q = r)); [congruence | reflexivity]. }
    split.
    + intros [H | [H1 H2]].
      * destruct (health_queues (clock q) (up q) (sw_heap s q)) eqn:E;
          [| left; exact H].
        apply elem_of_app in H as [H | H]; [left; exact H |].
        apply list_elem_of_singleton in H as ->.
        right. split; [left | exact E].
      * right. split; [right; exact H1 |].
        rewrite <- (Hsame p H1). exact H2.
    + intros [H | [H1 H2]].
      * left. destruct (health_queues (clock q) (up q) (sw_heap s q));
          [apply elem_of_app; left |]; exact H.
      * inversion H1; subst.
        -- left. rewrite H2. apply elem_of_app. right.
           apply list_elem_of_singleton. reflexivity.
        -- right. split; [assumption |].
           rewrite Hsame by assumption. exact H2.
Qed.

End health_sweep.

Section drop_batch.

Variable taken : ptr -> bool.

Lemma drop_turn_heap (q p : ptr) (hs : store * list ptr) :
  fst (drop_turn taken q hs) p =
  if taken q then fst hs p
  else if decide (q = p) then Close (fst hs q) else fst hs p.
Proof.
  unfold drop_turn. destruct (taken q); simpl; [reflexivity |].
  unfold insert, fn_insert. destruct (decide (q = p)); reflexivity.
Qed.

Lemma drop_turn_closed_or_probed (q p : ptr) (hs : store * list ptr) :
  closed_or_probed (fst hs p) (fst (drop_turn taken q hs) p).
Proof.
  rewrite drop_turn_heap. destruct (taken q); [apply closed_or_probed_refl |].
  destruct (decide (q = p)) as [-> |];
    [apply closed_or_probed_Close | apply closed_or_probed_refl].
Qed.

Lemma drop_batch_closed_or_probed (l : list ptr) (hs : store * list ptr)
  (p : ptr) :
  closed_or_probed (fst hs p) (fst (drop_batch taken l hs) p).
Proof.
  revert hs. induction l as [| q l IH]; intros hs; simpl.
  - apply closed_or_probed_refl.
  - eapply closed_or_probed_trans; [apply drop_turn_closed_or_probed |].
    apply IH.
Qed.

(** A queued connection that [h.unregister] does not take is closed on
    the spot. *)
Lemma drop_batch_closes (l : list ptr) (hs : store * list ptr) (p : ptr) :
  p ∈ l -> taken p = false ->
  isClosed (fst (drop_batch taken l hs) p) = true.
Proof.
  revert hs. induction l as [| q l IH]; intros hs Hin Ht; simpl.
  - inversion Hin.
  - destruct (decide (q = p)) as [-> | Hne].
    + eapply closed_or_probed_isClosed;
        [apply drop_batch_closed_or_probed |].
      rewrite drop_turn_heap, Ht. destruct (decide (p = p)); [| congruence].
      apply Close_isClosed.
    + apply IH; [inversion Hin; subst; congruence | exact Ht].
Qed.

(** The other connections are not touched by the second loop. *)
Lemma drop_batch_other (l : list ptr) (hs : store * list ptr) (p : ptr) :
  p ∉ l \/ taken p = true ->
  fst (drop_batch taken l hs) p = fst hs p.
Proof.
  revert hs. induction l as [| q l IH]; intros hs H; simpl; [reflexivity |].
  rewrite IH.
  - rewrite drop_turn_heap. destruct (taken q) eqn:E; [reflexivity |].
    destruct (decide (q = p)) as [-> |]; [| reflexivity].
    destruct H as [H | H]; [| congruence]. exfalso. apply H. left.
  - destruct H as [H | H]; [left | right; exact H].
    intros Hin. apply H. right. exact Hin.
Qed.

(** The second loop changes a connection by [Close] at most. *)
Lemma drop_batch_heap (l : list ptr) (hs : store * list ptr) (p : ptr) :
  fst (drop_batch taken l hs) p = fst hs p \/
  fst (drop_batch taken l hs) p = Close (fst hs p).
Proof.
  revert hs. induction l as [| q l IH]; intros hs; simpl; [left; reflexivity |].
  destruct (IH (drop_turn taken q hs)) as [-> | ->];
    rewrite drop_turn_heap; destruct (taken q); auto;
    destruct (decide (q = p)) as [-> |]; auto.
  right. apply Close_idempotent.
Qed.

Lemma broadcast_turn_conns (q : ptr) (f : filtered) :
  fl_conns (broadcast_turn taken q f) =
  if IsClosed (fl_heap f q) && negb (taken q) then delete q (fl_conns f)
  else fl_conns f.
Proof.
  unfold broadcast_turn.
  destruct (IsClosed (fl_heap f q)), (taken q); reflexivity.
Qed.

(** [Close] is called on closed connections only, so the filter loop
    leaves every connection as it was. *)
Lemma broadcast_turn_heap (q p : ptr) (f : filtered) :
  fl_heap (broadcast_turn taken q f) p = fl_heap f p.
Proof.
  unfold broadcast_turn.
  destruct (IsClosed (fl_heap f q)) eqn:E; [| reflexivity].
  destruct (taken q); [reflexivity |]. simpl.
  unfold insert, fn_insert. destruct (decide (q = p)) as [-> |];
    [| reflexivity].
  apply Close_closed_id. exact E.
Qed.

Lemma broadcast_filter_heap (ks : list ptr) (f : filtered) (p : ptr) :
  fl_heap (broadcast_filter taken ks f) p = fl_heap f p.
Proof.
  revert f. induction ks as [| q ks IH]; intros f; simpl; [reflexivity |].
  rewrite IH. apply broadcast_turn_heap.
Qed.

Lemma broadcast_filter_deletes (ks : list ptr) (f : filtered) (p : ptr) :
  p ∈ ks -> isClosed (fl_heap f p) = true -> taken p = false ->
  fl_conns (broadcast_filter taken ks f) !! p = None.
Proof.
  revert f. induction ks as [| q ks IH]; intros f Hin Hc Ht; simpl.
  - inversion Hin.
  - destruct (decide (p ∈ ks)) as [Hks | Hks].
    + apply IH; [exact Hks | | exact Ht].
      rewrite broadcast_turn_heap. exact Hc.
    + assert (p = q) as -> by (inversion Hin; subst; tauto).
      clear IH. revert Hks.
      assert (fl_conns (broadcast_turn taken q f) !! q = None) as H0.
      { rewrite broadcast_turn_conns. unfold IsClosed. rewrite Hc, Ht.
        apply lookup_delete_eq. }
      revert H0. generalize (broadcast_turn taken q f). clear.
      induction ks as [| r ks IH]; intros f H0 Hks; simpl; [exact H0 |].
      apply IH.
      * rewrite broadcast_turn_conns.
        destruct (IsClosed (fl_heap f r) && negb (taken r)); [| exact H0].
        rewrite lookup_delete_ne; [exact H0 |].
        intros ->. apply Hks. left.
      * intros H. apply Hks. right. exact H.
Qed.

Lemma broadcast_filter_keeps (ks : list ptr) (f : filtered) (p : ptr) :
  isClosed (fl_heap f p) && negb (taken p) = false \/ p ∉ ks ->
  fl_conns (broadcast_filter taken ks f) !! p = fl_conns f !! p.
Proof.
  revert f. induction ks as [| q ks IH]; intros f H; simpl; [reflexivity |].
  rewrite IH.
  - rewrite broadcast_turn_conns.
    destruct (IsClosed (fl_heap f q) && negb (taken q)) eqn:E;
      [| reflexivity].
    apply lookup_delete_ne. intros ->.
    destruct H as [H | H]; [unfold IsClosed in E; congruence |].
    apply H. left.
  - rewrite broadcast_turn_heap.
    destruct H as [H | H]; [left; exact H | right].
    intros Hin. apply H. right. exact Hin.
Qed.

(** The connections handed to delivery goroutines were found open. *)
Lemma broadcast_filter_active (ks : list ptr) (f : filtered) (p : ptr) :
  p ∈ fl_active (broadcast_filter taken ks f) ->
  p ∈ fl_active f \/ (p ∈ ks /\ isClosed (fl_heap f p) = false).
Proof.
  revert f. induction ks as [| q ks IH]; intros f H; simpl in H; [auto |].
  destruct (IH _ H) as [H1 | [H1 H2]].
  - unfold broadcast_turn in H1.
    destruct (IsClosed (fl_heap f q)) eqn:E.
    + destruct (taken q); left; exact H1.
    + simpl in H1. apply elem_of_app in H1 as [H1 | H1]; [left; exact H1 |].
      apply list_elem_of_singleton in H1 as ->.
      right. split; [left | exact E].
  - rewrite broadcast_turn_heap in H2. right. split; [right |]; assumption.
Qed.

End drop_batch.

(** ** the keys of the map *)

Lemma elem_of_keys (m : gmap ptr bool) (p : ptr) :
  p ∈ keys m <-> is_Some (m !! p).
Proof.
  unfold keys. rewrite list_elem_of_fmap. split.
  - intros [[q b] [-> H]]. apply elem_of_map_to_list in H. simpl. eauto.
  - intros [b H]. exists (p, b). split; [reflexivity |].
    apply elem_of_map_to_list. exact H.
Qed.

Lemma not_elem_of_keys (m : gmap ptr bool) (p : ptr) :
  p ∉ keys m -> m !! p = None.
Proof.
  intros H. destruct (m !! p) eqn:E; [| reflexivity].
  exfalso. apply H. apply elem_of_keys. eauto.
Qed.

Lemma NoDup_keys (m : gmap ptr bool) : NoDup (keys m).
Proof. apply NoDup_fst_map_to_list. Qed.

(** ** one step of the program *)

Lemma health_visit_ok (now : Time) (up : bool) (c : Connection) :
  conn_ok c -> conn_ok (health_visit now up c).
Proof.
  intros Hok. unfold health_visit.
  destruct (IsClosed c); [apply Close_ok, Hok |].
  destruct (shouldDrop now c); [exact Hok |].
  destruct (IsPaused c); [| exact Hok].
  destruct (SendPing_frame up c) as (H1 & _ & H2 & _).
  unfold conn_ok. rewrite H1, H2. exact Hok.
Qed.

Lemma health_sweep_ok (clock : ptr -> Time) (up : ptr -> bool)
  (ks : list ptr) (s : sweep) :
  store_ok (sw_heap s) -> store_ok (sw_heap (health_sweep clock up ks s)).
Proof.
  revert s. induction ks as [| q ks IH]; intros s Hok; simpl; [exact Hok |].
  apply IH. intros p. rewrite health_turn_heap.
  destruct (decide (q = p)); [apply health_visit_ok |]; apply Hok.
Qed.

Lemma checkConnectionHealth_ok (clock : ptr -> Time) (up taken : ptr -> bool)
  (w : World) :
  store_ok (heap w) ->
  store_ok (heap (checkConnectionHealth clock up taken w)).
Proof.
  intros Hok p. unfold checkConnectionHealth. simpl.
  match goal with
  | |- conn_ok (fst (drop_batch _ ?l ?hs) _) =>
      destruct (drop_batch_heap taken l hs p) as [-> | ->]
  end; simpl; [| apply Close_ok]; apply health_sweep_ok; exact Hok.
Qed.

Lemma broadcast_heap (logEntry : WebSocketMessage) (taken : ptr -> bool)
  (w : World) (p : ptr) :
  heap (broadcast logEntry taken w) p = heap w p.
Proof.
  unfold broadcast. destruct (size (connections w) =? 0)%nat; [reflexivity |].
  simpl. apply broadcast_filter_heap.
Qed.

(** A step from a well-formed store does not panic and leaves the store
    well formed. *)
Lemma step_ok (e : event) (w : World) :
  store_ok (heap w) ->
  exists w', step e w = Some w' /\ store_ok (heap w').
Proof.
  intros Hok. destruct e; simpl.
  - eexists; split; [reflexivity | exact Hok].
  - eexists; split; [reflexivity |]. intros p. simpl.
    unfold insert, fn_insert.
    destruct (decide (connection = p)); [apply Close_ok |]; apply Hok.
  - eexists; split; [reflexivity |]. apply checkConnectionHealth_ok, Hok.
  - eexists; split; [reflexivity |]. intros p. rewrite broadcast_heap.
    apply Hok.
  - destruct (deliveries w !! i) as [d |]; [| eauto].
    unfold delivery_step. destruct (d_pc d).
    + destruct (IsPaused (heap w (d_conn d)));
        eexists; (split; [reflexivity | exact Hok]).
    + destruct (shouldDrop now (heap w (d_conn d)));
        eexists; (split; [reflexivity | exact Hok]).
    + destruct (conn_step_ok (OpSendLog (d_msg d) now) _ (Hok (d_conn d)))
        as (c' & E & Hc'). simpl in E. rewrite E.
      eexists; split; [reflexivity |]. intros p. simpl.
      unfold insert, fn_insert.
      destruct (decide (d_conn d = p)); [exact Hc' | apply Hok].
  - destruct (conn_step_ok op _ (Hok p)) as (c' & E & Hc'). rewrite E.
    eexists; split; [reflexivity |]. intros q. simpl.
    unfold insert, fn_insert.
    destruct (decide (p = q)); [exact Hc' | apply Hok].
Qed.

Lemma run_ok (es : list event) (w : World) :
  store_ok (heap w) ->
  exists w', run es w = Some w' /\ store_ok (heap w').
Proof.
  revert w. induction es as [| e es IH]; intros w Hok; simpl.
  - eauto.
  - destruct (step_ok e w Hok) as (w1 & E & Hok1). rewrite E. apply IH, Hok1.
Qed.

(** What one step does to the membership of [p]. *)
Lemma step_connections (e : event) (w w' : World) (p : ptr) :
  step e w = Some w' ->
  connections w' !! p =
  if registers e p then Some true
  else if unregisters w e p then None
  else connections w !! p.
Proof.
  intros Hstep. destruct e; simpl in *.
  - injection Hstep as <-. simpl. case_bool_decide as H.
    + subst. apply lookup_insert_eq.
    + apply lookup_insert_ne. exact H.
  - injection Hstep as <-. simpl. case_bool_decide as H.
    + subst. apply lookup_delete_eq.
    + apply lookup_delete_ne. exact H.
  - injection Hstep as <-. unfold checkConnectionHealth, IsClosed. simpl.
    destruct (isClosed (heap w p)) eqn:Hc.
    + destruct (decide (p ∈ keys (connections w))) as [Hin | Hin].
      * apply health_sweep_deletes_closed; assumption.
      * rewrite health_sweep_keeps by (right; exact Hin).
        apply not_elem_of_keys, Hin.
    + apply health_sweep_keeps. left. exact Hc.
  - injection Hstep as <-. unfold broadcast, IsClosed.
    destruct (Nat.eqb_spec (size (connections w)) 0) as [Hz | Hz].
    + apply map_size_empty_iff in Hz.
      destruct (isClosed (heap w p) && negb (taken p)); [| reflexivity].
      rewrite Hz. apply lookup_empty.
    + simpl. destruct (isClosed (heap w p) && negb (taken p)) eqn:Hc.
      * apply andb_true_iff in Hc as [Hc Ht].
        apply negb_true_iff in Ht.
        destruct (decide (p ∈ keys (connections w))) as [Hin | Hin].
        -- apply broadcast_filter_deletes; assumption.
        -- rewrite broadcast_filter_keeps by (right; exact Hin).
           apply not_elem_of_keys, Hin.
      * apply broadcast_filter_keeps. left. exact Hc.
  - destruct (deliveries w !! i) as [d |];
      [| injection Hstep as <-; reflexivity].
    destruct (delivery_step now d (heap w)) as [[h rest] |]; [| discriminate].
    injection Hstep as <-. reflexivity.
  - destruct (conn_step op (heap w p0)); [| discriminate].
    injection Hstep as <-. reflexivity.
Qed.

Lemma run_connections (es : list event) (w w' : World) (p : ptr) (m : bool) :
  run es w = Some w' ->
  connections w !! p = (if m then Some true else None) ->
  connections w' !! p =
  if registered_not_unregistered es w p m then Some true else None.
Proof.
  revert w m. induction es as [| e es IH]; intros w m Hrun Hm; simpl in *.
  - injection Hrun as <-. exact Hm.
  - destruct (step e w) as [w1 |] eqn:E; [| discriminate].
    apply (IH w1); [exact Hrun |].
    rewrite (step_connections e w w1 p E).
    destruct (registers e p); [reflexivity |].
    destruct (unregisters w e p); [reflexivity | exact Hm].
Qed.

(** The select cases of [Run] change a connection by [Close] and
    [SendPing] only. *)
Lemma hub_step_closed_or_probed (e : event) (w w' : World) (p : ptr) :
  hub_event e = true -> step e w = Some w' ->
  closed_or_probed (heap w p) (heap w' p).
Proof.
  intros He Hstep. destruct e; simpl in *; try discriminate;
    injection Hstep as <-; simpl.
  - apply closed_or_probed_refl.
  - unfold insert, fn_insert. destruct (decide (connection = p)) as [-> |];
      [apply closed_or_probed_Close | apply closed_or_probed_refl].
  - unfold checkConnectionHealth. simpl.
    eapply closed_or_probed_trans;
      [| apply drop_batch_closed_or_probed]. simpl.
    apply (health_sweep_closed_or_probed clock up _
             {| sw_conns := connections w; sw_heap := heap w;
                sw_drop := [] |}).
  - rewrite broadcast_heap. apply closed_or_probed_refl.
Qed.

(** A delivery goroutine that finds its connection paused returns at once:
    the store is as before and the goroutine is gone. *)
Lemma delivery_skips_paused (w : World) (i : nat) (d : delivery) (now : Time) :
  deliveries w !! i = Some d -> d_pc d = AtIsPaused ->
  IsPaused (heap w (d_conn d)) = true ->
  step (EvDeliver i now) w =
  Some {| heap := heap w; connections := connections w;
          unregister_sent := unregister_sent w;
          deliveries := delete i (deliveries w) |}.
Proof.
  intros Hd Hpc Hp. simpl. rewrite Hd. unfold delivery_step.
  rewrite Hpc, Hp. reflexivity.
Qed.

(** So does one that finds the drop predicate true. *)
Lemma delivery_skips_dropped (w : World) (i : nat) (d : delivery) (now : Time) :
  deliveries w !! i = Some d -> d_pc d = AtShouldDrop ->
  shouldDrop now (heap w (d_conn d)) = true ->
  step (EvDeliver i now) w =
  Some {| heap := heap w; connections := connections w;
          unregister_sent := unregister_sent w;
          deliveries := delete i (deliveries w) |}.
Proof.
  intros Hd Hpc Hp. simpl. rewrite Hd. unfold delivery_step.
  rewrite Hpc, Hp. reflexivity.
Qed.

(** A health-check pass pings a member that is open, paused and not yet
    due for the drop. *)
Lemma checkConnectionHealth_pings (clock : ptr -> Time) (up taken : ptr -> bool)
  (w : World) (p : ptr) :
  is_Some (connections w !! p) ->
  isClosed (heap w p) = false ->
  shouldDrop (clock p) (heap w p) = false ->
  isPaused (heap w p) = true ->
  ws (heap (checkConnectionHealth clock up taken w) p) =
  ws (fst (SendPing (up p) (heap w p))).
Proof.
  intros Hin Hc Hd Hp. unfold checkConnectionHealth. simpl.
  set (s0 := {| sw_conns := connections w; sw_heap := heap w; sw_drop := [] |}).
  assert (sw_heap (health_sweep clock up (keys (connections w)) s0) p
          = fst (SendPing (up p) (heap w p))) as Hvisit.
  { rewrite health_sweep_heap_visit;
      [| apply NoDup_keys | apply elem_of_keys, Hin].
    unfold health_visit, IsClosed, IsPaused. simpl.
    rewrite Hc, Hd, Hp. reflexivity. }
  match goal with
  | |- ws (fst (drop_batch _ ?l ?hs) _) = _ =>
      destruct (drop_batch_heap taken l hs p) as [-> | ->]
  end; simpl; rewrite Hvisit; [reflexivity |].
  apply (proj1 (Close_frame _)).
Qed.

(** A health-check pass never deletes a connection that it finds open. *)
Lemma checkConnectionHealth_keeps_open (clock : ptr -> Time)
  (up taken : ptr -> bool) (w : World) (p : ptr) :
  isClosed (heap w p) = false ->
  connections (checkConnectionHealth clock up taken w) !! p
  = connections w !! p.
Proof.
  intros Hc. unfold checkConnectionHealth. simpl.
  apply health_sweep_keeps. left. exact Hc.
Qed.

(** A member that the pass queues, and that [h.unregister] does not take,
    is closed by the pass. *)
Lemma checkConnectionHealth_closes_queued (clock : ptr -> Time)
  (up taken : ptr -> bool) (w : World) (p : ptr) :
  is_Some (connections w !! p) ->
  health_queues (clock p) (up p) (heap w p) = true ->
  taken p = false ->
  isClosed (heap (checkConnectionHealth clock up taken w) p) = true.
Proof.
  intros Hin Hq Ht. unfold checkConnectionHealth. simpl.
  apply drop_batch_closes; [| exact Ht].
  apply health_sweep_drop; [apply NoDup_keys |]. right.
  split; [apply elem_of_keys, Hin | exact Hq].
Qed.

(** ** the membership set *)

(** C1.  From [NewConnectionHub], over a well-formed store, every sequence
    of steps (register, unregister, health tick, broadcast, and the steps
    of the goroutines around the loop) runs without panic, and afterwards
    a connection is a key of [h.connections] exactly when it has been
    registered and not unregistered since, where unregistering is the
    unregister case, a health check that finds the connection closed, or a
    broadcast that finds it closed while [h.unregister] does not take it.
    Every key maps to [true] and the keys are without duplicates. *)
Theorem hub_set_is_registered_and_not_unregistered
  (es : list event) (h : store) :
  store_ok h ->
  exists w,
    run es (NewConnectionHub h) = Some w /\
    (forall p, p ∈ dom (connections w) <->
               registered_not_unregistered es (NewConnectionHub h) p false
               = true) /\
    (forall p b, connections w !! p = Some b -> b = true) /\
    NoDup (keys (connections w)).
Proof.
  intros Hok.
  destruct (run_ok es (NewConnectionHub h) Hok) as (w & Hrun & _).
  exists w. split; [exact Hrun |].
  assert (forall p, connections w !! p =
                    if registered_not_unregistered es (NewConnectionHub h)
                         p false
                    then Some true else None) as Hm.
  { intros p. apply (run_connections es _ w p false Hrun).
    simpl. apply lookup_empty. }
  split; [| split].
  - intros p. rewrite elem_of_dom, Hm.
    destruct (registered_not_unregistered es (NewConnectionHub h) p false).
    + split; [reflexivity | eauto].
    + split; [intros [b Hb]; discriminate | discriminate].
  - intros p b. rewrite Hm.
    destruct (registered_not_unregistered es (NewConnectionHub h) p false);
      congruence.
  - apply NoDup_keys.
Qed.

Lemma hub_set_is_registered_and_not_unregistered_witness :
  store_ok all_fresh /\
  exists w,
    run [EvRegister 1%positive; EvRegister 2%positive; EvRegister 1%positive;
         EvBroadcast logMessage never;
         EvConn 2%positive OpClose;
         EvHealthTick (at_time (3 * Second)) always never;
         EvRegister 3%positive; EvUnregister 1%positive]
        (NewConnectionHub all_fresh) = Some w /\
    (forall p, p ∈ dom (connections w) <->
               registered_not_unregistered
                 [EvRegister 1%positive; EvRegister 2%positive;
                  EvRegister 1%positive;
                  EvBroadcast logMessage never;
                  EvConn 2%positive OpClose;
                  EvHealthTick (at_time (3 * Second)) always never;
                  EvRegister 3%positive; EvUnregister 1%positive]
                 (NewConnectionHub all_fresh) p false = true) /\
    (forall p b, connections w !! p = Some b -> b = true) /\
    NoDup (keys (connections w)).
Proof.
  assert (store_ok all_fresh) as H by (intros p Hp; discriminate Hp).
  split; [exact H |].
  apply (hub_set_is_registered_and_not_unregistered _ all_fresh H).
Defined.

(** ** the health check *)

(** C4, at the failing input.  The only member (address 1) is open, paused
    and past the ten-second threshold, and [h.unregister] takes nothing.
    The pass queues it, the non-blocking send falls to [default], and the
    connection is closed; it is still a key of [h.connections] when the
    pass ends.  A broadcast met in that state, the other caller of the
    same send, does delete the key. *)
Theorem health_check_force_close_keeps_the_key :
  connections paused_world !! 1%positive = Some true /\
  isClosed (heap paused_world 1%positive) = false /\
  shouldDrop (11 * Second) (heap paused_world 1%positive) = true /\
  isClosed
    (heap (checkConnectionHealth (at_time (11 * Second)) always never
             paused_world) 1%positive) = true /\
  unregister_sent
    (checkConnectionHealth (at_time (11 * Second)) always never paused_world)
  = [] /\
  connections
    (checkConnectionHealth (at_time (11 * Second)) always never paused_world)
    !! 1%positive = Some true /\
  connections
    (broadcast logMessage never
       (checkConnectionHealth (at_time (11 * Second)) always never
          paused_world)) !! 1%positive = None.
Proof. vm_compute. repeat split. Qed.

(** ** paused connections *)

(** C6, the counterexample.  The only member is paused, open, its socket is
    open and the network is up; it was last active at time 0.  The pass at
    11 s writes nothing to its wire: the drop predicate is true, so the
    connection is queued for removal and the ping is not sent. *)
Lemma stale_paused_connection_gets_no_ping :
  connections paused_world !! 1%positive = Some true /\
  IsPaused (heap paused_world 1%positive) = true /\
  IsClosed (heap paused_world 1%positive) = false /\
  ws_closed (ws (heap paused_world 1%positive)) = false /\
  wire (ws (heap paused_world 1%positive)) = [] /\
  wire (ws (heap (checkConnectionHealth (at_time (11 * Second)) always never
                    paused_world) 1%positive)) = [] /\
  wire (ws (heap (checkConnectionHealth (at_time (11 * Second)) always always
                    paused_world) 1%positive)) = [].
Proof. vm_compute. repeat split. Qed.

(** C9.  [sendLog] does not read the paused flag.  On an open connection
    with room in its queue the call appends the message and sets the
    last-activity timestamp whatever the flag is, and in every state its
    result commutes with setting the flag.  The skip is made by the
    delivery goroutine of the broadcast: started for the same connection
    while it is paused, it returns without calling [sendLog]. *)
Theorem sendLog_does_not_consult_paused
  (message : WebSocketMessage) (now : Time) (c : Connection) :
  conn_ok c -> isClosed c = false ->
  (length (buf (channel c)) < cap (channel c))%nat ->
  (exists c', sendLog message now c = Some c' /\
              buf (channel c') = buf (channel c) ++ [message] /\
              lastSent c' = now /\
              isPaused c' = isPaused c) /\
  (forall b, sendLog message now (with_isPaused b c)
             = option_map (with_isPaused b) (sendLog message now c)) /\
  (forall (h : store) (p : ptr) (t : Time),
     h p = c -> isPaused c = true ->
     delivery_step t (spawn message p) h = Some (h, None)).
Proof.
  intros Hok Hc Hroom. split; [| split].
  - eexists. split.
    + apply sendLog_room; auto using conn_ok_open.
    + simpl. auto.
  - intros b. unfold sendLog. simpl.
    destruct (isClosed c); [reflexivity |].
    destruct (chan_closed (channel c)); [reflexivity |].
    destruct (length (buf (channel c)) <? cap (channel c))%nat; reflexivity.
  - intros h p t Hp Hpaused. unfold delivery_step, spawn, IsPaused. simpl.
    rewrite Hp, Hpaused. reflexivity.
Qed.

Lemma sendLog_does_not_consult_paused_witness :
  conn_ok paused_conn /\ isClosed paused_conn = false /\
  (length (buf (channel paused_conn)) < cap (channel paused_conn))%nat /\
  isPaused paused_conn = true /\
  (exists c', sendLog logMessage 7 paused_conn = Some c' /\
              buf (channel c') = [logMessage] /\
              lastSent c' = 7 /\
              isPaused c' = true) /\
  delivery_step 7 (spawn logMessage 1%positive) (heap paused_world)
  = Some (heap paused_world, None).
Proof.
  assert (conn_ok paused_conn) as Hok by (intros H; discriminate H).
  assert (length (buf (channel paused_conn)) < cap (channel paused_conn))%nat
    as Hroom by (simpl; lia).
  destruct (sendLog_does_not_consult_paused logMessage 7 paused_conn
              Hok eq_refl Hroom) as (H1 & _ & H2).
  split; [exact Hok |]. split; [reflexivity |]. split; [exact Hroom |].
  split; [reflexivity |]. split; [exact H1 |].
  apply (H2 (heap paused_world) 1%positive 7); reflexivity.
Defined.

(** ** the liveness probe and the timestamp *)

(** The dispatch sets the timestamp to its clock reading or changes
    nothing. *)
Lemma dispatch_lastSent_or_same (message : WebSocketMessage) (now : Time)
  (up : bool) (c : Connection) :
  lastSent (dispatch message now up c) = now \/
  dispatch message now up c = c.
Proof.
  unfold dispatch, SetPaused.
  repeat match goal with
         | |- context [String.eqb ?a ?b] => destruct (String.eqb a b)
         end; simpl; auto;
    destruct (isClosed c); simpl; auto.
Qed.


Lemma Send_step_lastSent (up : bool) (c : Connection) :
  lastSent (fst (Send_step up c)) = lastSent c.
Proof.
  unfold Send_step, Send_exit.
  destruct (buf (channel c)) as [| m rest].
  - destruct (chan_closed (channel c)); simpl; [| reflexivity].
    rewrite (proj1 (proj2 (Close_frame _))). reflexivity.
  - simpl. destruct (WriteJSON up m (ws c)) as [w [|]]; simpl; [reflexivity |].
    rewrite (proj1 (proj2 (Close_frame _))). reflexivity.
Qed.

(** C10, as amended.  [SendPing] leaves the closed flag, the paused flag,
    the outbound queue and the last-activity timestamp as they were,
    whether the write succeeds or not; a successful probe puts a ping on
    the wire and still does not move the timestamp, so the drop predicate
    answers the same before and after at every time and a probe never
    defers the drop.  No select case of [Run], the health check with its
    probes included, moves the timestamp of any connection.  The
    timestamp moves in two places only: when the inbound task reads an
    envelope (to the time of the read), and when [sendLog] enqueues a
    message on an open connection with room (to the time of the call). *)
Theorem SendPing_leaves_connection_state (up : bool) (c : Connection) :
  isClosed (fst (SendPing up c)) = isClosed c /\
  isPaused (fst (SendPing up c)) = isPaused c /\
  channel (fst (SendPing up c)) = channel c /\
  lastSent (fst (SendPing up c)) = lastSent c /\
  (snd (SendPing up c) = true ->
   wire (ws (fst (SendPing up c))) = wire (ws c) ++ [pingMessage] /\
   lastSent (fst (SendPing up c)) = lastSent c) /\
  (forall now, shouldDrop now (fst (SendPing up c)) = shouldDrop now c) /\
  (forall e w w' p,
     hub_event e = true -> step e w = Some w' ->
     lastSent (heap w' p) = lastSent (heap w p)) /\
  (forall op c1 c2,
     conn_step op c1 = Some c2 -> lastSent c2 <> lastSent c1 ->
     (exists r message,
        op = OpInbound r /\ in_read r = ReadOk message /\
        lastSent c2 = in_now r) \/
     (exists message now,
        op = OpSendLog message now /\ isClosed c1 = false /\
        (length (buf (channel c1)) < cap (channel c1))%nat /\
        buf (channel c2) = buf (channel c1) ++ [message] /\
        lastSent c2 = now)).
Proof.
  destruct (SendPing_frame up c) as (H1 & H2 & H3 & H4).
  split; [exact H1 |]. split; [exact H2 |]. split; [exact H3 |].
  split; [exact H4 |]. split; [auto using SendPing_wire |].
  split; [auto using shouldDrop_fields |]. split.
  - intros e w w' p He Hstep.
    apply (hub_step_closed_or_probed e w w' p He Hstep).
  - intros op c1 c2 Hstep Hne. destruct op; simpl in Hstep.
    + injection Hstep as <-. exfalso. apply Hne.
      apply (proj1 (proj2 (Close_frame c1))).
    + right. exists message, now. split; [reflexivity |].
      unfold sendLog in Hstep. destruct (isClosed c1).
      { injection Hstep as <-. congruence. }
      destruct (chan_closed (channel c1)); [discriminate |].
      destruct (Nat.ltb_spec (length (buf (channel c1))) (cap (channel c1)));
        injection Hstep as <-; [simpl; auto | congruence].
    + injection Hstep as <-. exfalso. apply Hne. unfold SetPaused.
      destruct (isClosed c1); reflexivity.
    + injection Hstep as <-. exfalso. apply Hne.
      apply (SendPing_frame up0 c1).
    + injection Hstep as <-. simpl in Hne.
      destruct (in_read r) as [message |] eqn:E.
      * left. exists r, message. split; [reflexivity |].
        split; [exact E |].
        assert (lastSent (dispatch message (in_now r) (in_up r) c1)
                <> lastSent c1) as Hne' by exact Hne.
        change (lastSent (dispatch message (in_now r) (in_up r) c1)
                = in_now r).
        destruct (dispatch_lastSent_or_same message (in_now r) (in_up r) c1)
          as [H | H]; [exact H | rewrite H in Hne'; congruence].
      * exfalso. apply Hne. apply (proj1 (proj2 (Close_frame c1))).
    + injection Hstep as <-. exfalso. apply Hne. apply Send_step_lastSent.
Qed.

(** * Further properties of the code *)

(** ** the outbound queue *)

(** What an operation does to the channel: the capacity stays, and the
    queue either loses messages from its front or, when it has room, gets
    one message at its end. *)
Lemma conn_step_channel (op : conn_op) (c c' : Connection) :
  conn_step op c = Some c' ->
  cap (channel c') = cap (channel c) /\
  (remainder_of (buf (channel c')) (buf (channel c)) \/
   ((length (buf (channel c)) < cap (channel c))%nat /\
    exists m, buf (channel c') = buf (channel c) ++ [m])).
Proof.
  intros Hstep. destruct op; simpl in Hstep.
  - injection Hstep as <-. split; [apply Close_frame |].
    left. apply Close_remainder.
  - unfold sendLog in Hstep. destruct (isClosed c).
    { injection Hstep as <-. auto with conn. }
    destruct (chan_closed (channel c)); [discriminate |].
    destruct (Nat.ltb_spec (length (buf (channel c))) (cap (channel c)));
      injection Hstep as <-; simpl; [| auto with conn].
    split; [reflexivity |]. right. eauto.
  - injection Hstep as <-. unfold SetPaused.
    destruct (isClosed c); simpl; auto with conn.
  - injection Hstep as <-.
    destruct (SendPing_frame up c) as (_ & _ & -> & _). auto with conn.
  - injection Hstep as <-. simpl. destruct (in_read r); simpl.
    + destruct (dispatch_frame message (in_now r) (in_up r) c) as [_ ->].
      auto with conn.
    + split; [apply Close_frame |]. left. apply Close_remainder.
  - injection Hstep as <-. unfold Send_step, Send_exit.
    destruct (buf (channel c)) as [| m rest] eqn:Eb.
    + destruct (chan_closed (channel c)); simpl; [| rewrite Eb; auto with conn].
      split; [apply (Close_frame (with_ws _ c)) |]. left.
      rewrite <- Eb. apply (Close_remainder (with_ws _ c)).
    + simpl. destruct (WriteJSON up m (ws c)) as [w [|]]; simpl.
      * auto with conn.
      * match goal with
        | |- context [Close ?x] =>
            split; [apply (Close_frame x) |]; left;
            eapply remainder_of_trans; [apply (Close_remainder x) |]
        end.
        simpl. apply remainder_of_tail.
Qed.

Lemma conn_step_within_cap (op : conn_op) (c c' : Connection) :
  conn_step op c = Some c' ->
  (length (buf (channel c)) <= cap (channel c))%nat ->
  (length (buf (channel c')) <= cap (channel c'))%nat.
Proof.
  intros Hstep Hle.
  destruct (conn_step_channel op c c' Hstep) as [-> [H | [Hlt [m ->]]]].
  - apply remainder_of_length in H. lia.
  - rewrite length_app. simpl. lia.
Qed.

(** X1.  At every point that a sequence of operations reaches from a
    connection made by [NewConnection], the capacity of its channel is 100
    and the queue holds at most 100 messages. *)
Theorem queue_never_exceeds_capacity
  (conn : WsConn) (now : Time) (ops : list conn_op) (c : Connection) :
  conn_run ops (NewConnection conn now) = Some c ->
  cap (channel c) = 100%nat /\
  (length (buf (channel c)) <= 100)%nat.
Proof.
  intros Hrun.
  assert (forall c0, conn_run ops c0 = Some c ->
            (length (buf (channel c0)) <= cap (channel c0))%nat ->
            cap (channel c) = cap (channel c0) /\
            (length (buf (channel c)) <= cap (channel c))%nat) as Hgen.
  { clear. induction ops as [| op ops IH]; intros c0 Hrun Hle; simpl in Hrun.
    - injection Hrun as <-. auto.
    - destruct (conn_step op c0) as [c1 |] eqn:E; [| discriminate].
      destruct (IH c1 Hrun (conn_step_within_cap op c0 c1 E Hle)) as [H1 H2].
      split; [| exact H2]. rewrite H1.
      apply (conn_step_channel op c0 c1 E). }
  destruct (Hgen _ Hrun) as [H1 H2]; [simpl; lia |].
  simpl in H1. rewrite H1 in H2. auto.
Qed.

Lemma queue_never_exceeds_capacity_witness :
  exists c,
    conn_run (enqueue_all (repeat (logMessage, 1%Z) 120) ++ [OpOutbound true])
      (NewConnection ws0 0) = Some c /\
    wire (ws c) = [logMessage] /\
    cap (channel c) = 100%nat /\
    (length (buf (channel c)) <= 100)%nat.
Proof.
  eexists. split; [vm_compute; reflexivity |].
  split; [reflexivity |].
  eapply (queue_never_exceeds_capacity ws0 0
            (enqueue_all (repeat (logMessage, 1%Z) 120) ++ [OpOutbound true])).
  vm_compute. reflexivity.
Defined.

(** ** the last-activity timestamp *)

Lemma dispatch_lastSent (message : WebSocketMessage) (now : Time) (up : bool)
  (c : Connection) :
  lastSent (dispatch message now up c) = now \/
  dispatch message now up c = c.
Proof.
  unfold dispatch, SetPaused.
  repeat match goal with
         | |- context [String.eqb ?a ?b] => destruct (String.eqb a b)
         end; simpl; auto;
    destruct (isClosed c); simpl; auto.
Qed.

(** An operation leaves the timestamp or sets it to its own reading of the
    clock. *)
Lemma conn_step_lastSent (op : conn_op) (c c' : Connection) :
  conn_step op c = Some c' ->
  lastSent c' = lastSent c \/ op_time op = Some (lastSent c').
Proof.
  intros Hstep. destruct op; simpl in Hstep.
  - injection Hstep as <-. left. apply Close_frame.
  - unfold sendLog in Hstep. destruct (isClosed c).
    { injection Hstep as <-. auto. }
    destruct (chan_closed (channel c)); [discriminate |].
    destruct (length (buf (channel c)) <? cap (channel c))%nat;
      injection Hstep as <-; simpl; auto.
  - injection Hstep as <-. left. unfold SetPaused.
    destruct (isClosed c); reflexivity.
  - injection Hstep as <-. left. apply SendPing_frame.
  - injection Hstep as <-. simpl. destruct (in_read r); simpl.
    + destruct (dispatch_lastSent message (in_now r) (in_up r) c) as [H | H].
      * right. rewrite H. reflexivity.
      * left. rewrite H. reflexivity.
    + left. apply Close_frame.
  - injection Hstep as <-. left. apply Send_step_lastSent.
Qed.

Lemma clock_run (ops : list conn_op) (c c' : Connection) (t : Time) :
  conn_run ops c = Some c' -> lastSent c <= t -> clock_monotone t ops ->
  lastSent c <= lastSent c' /\
  exists t', lastSent c' <= t' /\
             forall ops2, clock_monotone t (ops ++ ops2) ->
                          clock_monotone t' ops2.
Proof.
  revert c t. induction ops as [| op ops IH]; intros c t Hrun Hle Hmono;
    simpl in *.
  - injection Hrun as <-. split; [lia |]. exists t. auto.
  - destruct (conn_step op c) as [c1 |] eqn:E; [| discriminate].
    destruct (conn_step_lastSent op c c1 E) as [Hsame | Hnew].
    + destruct (op_time op) as [t1 |].
      * destruct Hmono as [Ht Hmono].
        destruct (IH c1 t1 Hrun ltac:(lia) Hmono) as (H1 & t' & H2 & H3).
        split; [lia |]. exists t'. split; [exact H2 |].
        intros ops2 [_ H]. apply H3, H.
      * destruct (IH c1 t Hrun ltac:(lia) Hmono) as (H1 & t' & H2 & H3).
        split; [lia |]. exists t'. auto.
    + rewrite Hnew in Hmono. destruct Hmono as [Ht Hmono].
      destruct (IH c1 (lastSent c1) Hrun ltac:(lia) Hmono)
        as (H1 & t' & H2 & H3).
      split; [lia |]. exists t'. split; [exact H2 |].
      rewrite Hnew. intros ops2 [_ H]. apply H3, H.
Qed.

(** X2.  While the clock does not run backwards the last-activity
    timestamp never decreases: between any two points of a run of
    operations, the later value is at least the earlier one. *)
Theorem lastSent_never_decreases
  (ops1 ops2 : list conn_op) (c c1 c2 : Connection) (t : Time) :
  lastSent c <= t ->
  clock_monotone t (ops1 ++ ops2) ->
  conn_run ops1 c = Some c1 ->
  conn_run ops2 c1 = Some c2 ->
  lastSent c <= lastSent c1 /\ lastSent c1 <= lastSent c2.
Proof.
  intros Hle Hmono Hrun1 Hrun2.
  assert (clock_monotone t ops1) as Hm1.
  { clear - Hmono. revert t Hmono.
    induction ops1 as [| op ops IH]; intros t H; simpl in *; [exact I |].
    destruct (op_time op); [destruct H; split |]; auto. }
  destruct (clock_run ops1 c c1 t Hrun1 Hle Hm1) as (H1 & t' & H2 & H3).
  split; [exact H1 |].
  apply (clock_run ops2 c1 c2 t' Hrun2 H2 (H3 _ Hmono)).
Qed.

Lemma lastSent_never_decreases_witness :
  lastSent fresh <= 0 /\
  clock_monotone 0 ([OpSendLog logMessage 4; OpInbound (read_of pauseMessage 5)]
                      ++ [OpSendPing true; OpInbound (read_of pongMessage 9)]) /\
  lastSent fresh <= 5 /\ 5 <= 9.
Proof.
  assert (clock_monotone 0
            ([OpSendLog logMessage 4; OpInbound (read_of pauseMessage 5)]
               ++ [OpSendPing true; OpInbound (read_of pongMessage 9)]))
    as Hm by (simpl; lia).
  split; [reflexivity |]. split; [exact Hm |].
  refine (lastSent_never_decreases
            [OpSendLog logMessage 4; OpInbound (read_of pauseMessage 5)]
            [OpSendPing true; OpInbound (read_of pongMessage 9)]
            fresh _ _ 0 _ Hm eq_refl eq_refl).
  reflexivity.
Defined.

(** ** the outbound task *)

Lemma Send_app (ups1 ups2 : list bool) (c : Connection) :
  snd (Send ups1 c) = SendRunning ->
  Send (ups1 ++ ups2) c = Send ups2 (fst (Send ups1 c)).
Proof.
  revert c. induction ups1 as [| up ups1 IH]; intros c H; simpl in *.
  - reflexivity.
  - destruct (Send_step up c) as [c1 [| |]]; simpl in *;
      [apply IH, H | discriminate | discriminate].
Qed.

(** With the socket open and the network up, as many turns as there are
    queued messages write the whole queue, oldest first. *)
Lemma Send_drains (q : list WebSocketMessage) (c : Connection) :
  buf (channel c) = q -> ws_closed (ws c) = false ->
  Send (repeat true (length q)) c =
  (with_ws {| wire := wire (ws c) ++ q; ws_closed := false |}
     (with_channel (with_buf [] (channel c)) c), SendRunning).
Proof.
  revert c. induction q as [| m q IH]; intros c Hq Hopen; simpl.
  - destruct c as [[wr wc] [b cp cc] ls ic ip]. simpl in *. subst.
    rewrite app_nil_r. reflexivity.
  - unfold Send_step. rewrite Hq. simpl. unfold WriteJSON. rewrite Hopen.
    simpl. rewrite IH by reflexivity. simpl.
    rewrite <- app_assoc. reflexivity.
Qed.

(** X3.  The outbound task writes the queue in order.  With the socket
    open and every write succeeding, as many turns as there are queued
    messages put exactly the queue, oldest first, after what was on the
    wire, empty the queue and change nothing else; at the next turn the
    task waits when the channel is open and leaves, closing the socket,
    when it is closed. *)
Theorem Send_writes_queue_in_order (c : Connection) (up : bool) :
  ws_closed (ws c) = false ->
  let n := length (buf (channel c)) in
  snd (Send (repeat true n) c) = SendRunning /\
  wire (ws (fst (Send (repeat true n) c))) = wire (ws c) ++ buf (channel c) /\
  buf (channel (fst (Send (repeat true n) c))) = [] /\
  isClosed (fst (Send (repeat true n) c)) = isClosed c /\
  isPaused (fst (Send (repeat true n) c)) = isPaused c /\
  lastSent (fst (Send (repeat true n) c)) = lastSent c /\
  snd (Send (repeat true n ++ [up]) c)
  = (if chan_closed (channel c) then SendExited else SendBlocked) /\
  (chan_closed (channel c) = true ->
   ws_closed (ws (fst (Send (repeat true n ++ [up]) c))) = true /\
   isClosed (fst (Send (repeat true n ++ [up]) c)) = true).
Proof.
  intros Hopen n. subst n.
  pose proof (Send_drains (buf (channel c)) c eq_refl Hopen) as Hd.
  rewrite Send_app by (rewrite Hd; reflexivity).
  rewrite Hd. simpl. repeat (split; [reflexivity |]).
  unfold Send_step. simpl.
  destruct (chan_closed (channel c)); simpl.
  - split; [reflexivity |]. intros _. unfold Send_exit.
    split; [rewrite (proj1 (Close_frame _)); reflexivity |].
    apply Close_isClosed.
  - split; [reflexivity | discriminate].
Qed.

Lemma Send_writes_queue_in_order_witness :
  ws_closed (ws one_queued) = false /\
  wire (ws (fst (Send (repeat true 1) one_queued))) = [logMessage] /\
  buf (channel (fst (Send (repeat true 1) one_queued))) = [] /\
  snd (Send (repeat true 1 ++ [true]) one_queued) = SendBlocked.
Proof.
  destruct (Send_writes_queue_in_order one_queued true eq_refl)
    as (_ & H1 & H2 & _ & _ & _ & H3 & _).
  split; [reflexivity |]. split; [exact H1 |]. split; [exact H2 | exact H3].
Defined.

Lemma enqueue_all_room (ms : list (WebSocketMessage * Time)) (c : Connection) :
  isClosed c = false -> chan_closed (channel c) = false ->
  (length (buf (channel c)) + length ms <= cap (channel c))%nat ->
  exists c', conn_run (enqueue_all ms) c = Some c' /\
             buf (channel c') = buf (channel c) ++ map fst ms /\
             ws c' = ws c /\ isClosed c' = false /\
             isPaused c' = isPaused c /\
             chan_closed (channel c') = false.
Proof.
  revert c. induction ms as [| [m t] ms IH]; intros c Hc Hch Hroom; simpl in *.
  - exists c. rewrite app_nil_r. repeat split; auto.
  - rewrite sendLog_room by (auto; lia).
    match goal with
    | |- context [conn_run _ ?x] =>
        destruct (IH x) as (c' & H1 & H2 & H3 & H4 & H5 & H6)
    end.
    + exact Hc.
    + exact Hch.
    + simpl. rewrite length_app. simpl. lia.
    + exists c'. split; [exact H1 |]. simpl in *.
      rewrite H2, <- app_assoc. repeat split; auto.
Qed.

(** X4.  What is enqueued while there is room reaches the wire unchanged
    and in the order of the calls: after the enqueues of a batch that fits
    into an open connection, the outbound task, with the socket open and
    the network up, writes the earlier queue and then the batch. *)
Theorem enqueued_batch_is_written_in_order
  (ms : list (WebSocketMessage * Time)) (c : Connection) :
  conn_ok c -> isClosed c = false -> ws_closed (ws c) = false ->
  (length (buf (channel c)) + length ms <= cap (channel c))%nat ->
  exists c',
    conn_run (enqueue_all ms) c = Some c' /\
    buf (channel c') = buf (channel c) ++ map fst ms /\
    wire (ws (fst (Send (repeat true (length (buf (channel c')))) c')))
    = wire (ws c) ++ buf (channel c) ++ map fst ms /\
    buf (channel (fst (Send (repeat true (length (buf (channel c')))) c')))
    = [].
Proof.
  intros Hok Hc Hopen Hroom.
  destruct (enqueue_all_room ms c Hc (conn_ok_open c Hok Hc) Hroom)
    as (c' & H1 & H2 & H3 & _).
  exists c'. split; [exact H1 |]. split; [exact H2 |].
  rewrite (Send_drains _ c' eq_refl) by (rewrite H3; exact Hopen).
  simpl. rewrite H3, H2. auto.
Qed.

Lemma enqueued_batch_is_written_in_order_witness :
  conn_ok one_queued /\
  exists c',
    conn_run (enqueue_all [(pingMessage, 3); (pongMessage, 4)]) one_queued
    = Some c' /\
    buf (channel c') = [logMessage; pingMessage; pongMessage] /\
    wire (ws (fst (Send (repeat true (length (buf (channel c')))) c')))
    = [logMessage; pingMessage; pongMessage] /\
    buf (channel (fst (Send (repeat true (length (buf (channel c')))) c')))
    = [].
Proof.
  assert (conn_ok one_queued) as Hok by (intros H; discriminate H).
  split; [exact Hok |].
  apply (enqueued_batch_is_written_in_order
           [(pingMessage, 3); (pongMessage, 4)] one_queued Hok);
    [reflexivity | reflexivity | simpl; lia].
Defined.

(** A write that fails, with what it leaves. *)
Lemma Send_write_failure_closes_aux
  (up : bool) (c : Connection) (m : WebSocketMessage)
  (rest : list WebSocketMessage) :
  buf (channel c) = m :: rest ->
  up = false \/ ws_closed (ws c) = true ->
  snd (Send_step up c) = SendExited /\
  wire (ws (fst (Send_step up c))) = wire (ws c) /\
  ws_closed (ws (fst (Send_step up c))) = true /\
  isClosed (fst (Send_step up c)) = true /\
  remainder_of (buf (channel (fst (Send_step up c)))) rest.
Proof.
  intros Hb Hfail. unfold Send_step. rewrite Hb. simpl.
  assert (WriteJSON up m (ws c) = (ws c, false)) as ->.
  { unfold WriteJSON. destruct (ws_closed (ws c)); [reflexivity |].
    destruct Hfail as [-> | H]; [reflexivity | discriminate]. }
  simpl. unfold Send_exit.
  match goal with
  | |- context [Close ?x] =>
      pose proof (Close_frame x) as (H1 & _);
      pose proof (Close_remainder x) as H2;
      pose proof (Close_isClosed x) as H3
  end.
  simpl in *. rewrite H1. simpl. auto.
Qed.

(** X5.  The first write that fails ends the outbound task: the message
    taken from the queue is lost (it is neither on the wire nor in the
    queue), the socket is closed and the connection is closed. *)
Theorem Send_write_failure_closes
  (up : bool) (c : Connection) (m : WebSocketMessage)
  (rest : list WebSocketMessage) :
  buf (channel c) = m :: rest ->
  up = false \/ ws_closed (ws c) = true ->
  snd (Send_step up c) = SendExited /\
  wire (ws (fst (Send_step up c))) = wire (ws c) /\
  ws_closed (ws (fst (Send_step up c))) = true /\
  isClosed (fst (Send_step up c)) = true /\
  remainder_of (buf (channel (fst (Send_step up c)))) rest.
Proof. apply Send_write_failure_closes_aux. Qed.

Lemma Send_write_failure_closes_witness :
  buf (channel one_queued) = [logMessage] /\
  snd (Send_step false one_queued) = SendExited /\
  wire (ws (fst (Send_step false one_queued))) = [] /\
  ws_closed (ws (fst (Send_step false one_queued))) = true /\
  isClosed (fst (Send_step false one_queued)) = true.
Proof.
  destruct (Send_write_failure_closes false one_queued logMessage []
              eq_refl (or_introl eq_refl)) as (H1 & H2 & H3 & H4 & _).
  split; [reflexivity |]. auto.
Defined.

(** X6.  [Close] of an open connection whose queue is empty closes the
    channel, and the outbound task then leaves at its next turn and closes
    the socket, whatever the network does. *)
Theorem Close_of_empty_queue_ends_outbound_task (up : bool) (c : Connection) :
  isClosed c = false -> buf (channel c) = [] ->
  chan_closed (channel (Close c)) = true /\
  snd (Send_step up (Close c)) = SendExited /\
  ws_closed (ws (fst (Send_step up (Close c)))) = true /\
  wire (ws (fst (Send_step up (Close c)))) = wire (ws c) /\
  isClosed (fst (Send_step up (Close c))) = true.
Proof.
  intros Hc Hb.
  pose proof (Close_empty_queue c Hc Hb) as Hch.
  assert (buf (channel (Close c)) = []) as Hb'.
  { unfold Close. rewrite Hc. simpl. rewrite Hb.
    destruct (chan_closed (channel c)); simpl; [exact Hb | reflexivity]. }
  split; [exact Hch |]. unfold Send_step. rewrite Hb', Hch. simpl.
  unfold Send_exit. rewrite Close_closed_id by apply Close_isClosed.
  simpl. rewrite (proj1 (Close_frame c)).
  repeat split. apply Close_isClosed.
Qed.

Lemma Close_of_empty_queue_ends_outbound_task_witness :
  isClosed fresh = false /\ buf (channel fresh) = [] /\
  snd (Send_step true (Close fresh)) = SendExited /\
  ws_closed (ws (fst (Send_step true (Close fresh)))) = true.
Proof.
  destruct (Close_of_empty_queue_ends_outbound_task true fresh
              eq_refl eq_refl) as (_ & H1 & H2 & _).
  split; [reflexivity |]. split; [reflexivity |]. auto.
Defined.

(** ** the inbound task *)

(** X7.  The inbound task leaves exactly at the first read that fails, and
    the connection is then closed; as long as every read succeeds the task
    keeps running and changes neither the closed flag nor the channel,
    whatever the envelopes are. *)
Theorem HandleMessages_leaves_at_first_read_error
  (reads : list inbound) (c : Connection) :
  (Forall (fun r => in_read r <> ReadErr) reads ->
   snd (HandleMessages reads c) = Running /\
   isClosed (fst (HandleMessages reads c)) = isClosed c /\
   channel (fst (HandleMessages reads c)) = channel c) /\
  (Exists (fun r => in_read r = ReadErr) reads ->
   snd (HandleMessages reads c) = Exited /\
   isClosed (fst (HandleMessages reads c)) = true).
Proof.
  split.
  - revert c. induction reads as [| r reads IH]; intros c Hall; simpl.
    + auto.
    + inversion Hall as [| ? ? Hr Hrest]; subst.
      destruct (in_read r) as [message |]; [| congruence].
      destruct (IH (dispatch message (in_now r) (in_up r) c) Hrest)
        as (H1 & H2 & H3).
      destruct (dispatch_frame message (in_now r) (in_up r) c) as [H4 H5].
      split; [exact H1 |]. split; congruence.
  - revert c. induction reads as [| r reads IH]; intros c Hex; simpl.
    + inversion Hex.
    + destruct (in_read r) as [message |] eqn:E.
      * apply IH. inversion Hex; subst; [congruence | assumption].
      * simpl. split; [reflexivity | apply Close_isClosed].
Qed.

Lemma HandleMessages_leaves_at_first_read_error_witness :
  (snd (HandleMessages [read_of pauseMessage 1; read_of logMessage 2] fresh)
   = Running /\
   isClosed (fst (HandleMessages [read_of pauseMessage 1; read_of logMessage 2]
                    fresh)) = false) /\
  (snd (HandleMessages [read_of pauseMessage 1; read_error;
                        read_of resumeMessage 4] fresh) = Exited /\
   isClosed (fst (HandleMessages [read_of pauseMessage 1; read_error;
                                  read_of resumeMessage 4] fresh)) = true).
Proof.
  split.
  - destruct (proj1 (HandleMessages_leaves_at_first_read_error
                       [read_of pauseMessage 1; read_of logMessage 2] fresh))
      as (H1 & H2 & _).
    + repeat constructor; intros H; discriminate H.
    + split; [exact H1 | exact H2].
  - apply (proj2 (HandleMessages_leaves_at_first_read_error
                    [read_of pauseMessage 1; read_error;
                     read_of resumeMessage 4] fresh)).
    right. left. reflexivity.
Defined.

(** X8.  An envelope of type ping, pong, pause or resume read at time
    [now] by an open connection keeps the drop predicate false until ten
    seconds after [now]; and once a pause has been read, with nothing
    after it, the predicate is true at every time later than that. *)
Theorem inbound_envelope_defers_drop_by_ten_seconds
  (message : WebSocketMessage) (now t : Time) (up : bool) (c : Connection) :
  isClosed c = false ->
  Type_ message = "ping"%string \/ Type_ message = "pong"%string \/
  Type_ message = "pause"%string \/ Type_ message = "resume"%string ->
  (t - now <= 10 * Second ->
   shouldDrop t (dispatch message now up c) = false) /\
  (Type_ message = "pause"%string -> t - now > 10 * Second ->
   shouldDrop t (dispatch message now up c) = true).
Proof.
  intros Hc Hty.
  assert (lastSent (dispatch message now up c) = now /\
          isClosed (dispatch message now up c) = false /\
          (Type_ message = "pause"%string ->
           isPaused (dispatch message now up c) = true)) as (H1 & H2 & H3).
  { unfold dispatch, SetPaused.
    destruct Hty as [-> | [-> | [-> | ->]]]; simpl; rewrite ?Hc; simpl;
      repeat split; auto; discriminate. }
  unfold shouldDrop. rewrite H1, H2.
  rewrite (Since_exceeds _ _ _ ten_seconds_in_range). split.
  - intros Ht. destruct (Z.gtb_spec (t - now) (10 * Second)); [lia |].
    rewrite andb_false_r. reflexivity.
  - intros Hp Ht. rewrite (H3 Hp).
    destruct (Z.gtb_spec (t - now) (10 * Second)); [reflexivity | lia].
Qed.

Lemma inbound_envelope_defers_drop_by_ten_seconds_witness :
  isClosed paused_conn = false /\
  shouldDrop (12 * Second) paused_conn = true /\
  shouldDrop (12 * Second) (dispatch pongMessage (3 * Second) true paused_conn)
  = false /\
  shouldDrop (14 * Second) (dispatch pauseMessage (3 * Second) true fresh)
  = true.
Proof.
  split; [reflexivity |]. split; [reflexivity |]. split.
  - apply (inbound_envelope_defers_drop_by_ten_seconds pongMessage
             (3 * Second) (12 * Second) true paused_conn eq_refl).
    + right. left. reflexivity.
    + unfold Second. lia.
  - apply (inbound_envelope_defers_drop_by_ten_seconds pauseMessage
             (3 * Second) (14 * Second) true fresh eq_refl).
    + right. right. left. reflexivity.
    + reflexivity.
    + unfold Second. lia.
Defined.

(** ** the pause button and the paused flag *)

Lemma press_length (n : nat) (b : bool) : length (fst (press n b)) = n.
Proof.
  revert b. induction n as [| n IH]; intros b; simpl; [reflexivity |].
  specialize (IH (negb b)). destruct (press n (negb b)). simpl in *.
  rewrite IH. reflexivity.
Qed.

Lemma press_state (n : nat) (b : bool) :
  snd (press n b) = (if Nat.even n then b else negb b).
Proof.
  revert b. induction n as [| n IH]; intros b; [reflexivity |].
  rewrite Nat.even_succ, <- Nat.negb_even.
  cbn [press handlePauseResume]. specialize (IH (negb b)).
  destruct (press n (negb b)) as [ms s]. simpl in *. rewrite IH.
  destruct (Nat.even n), b; reflexivity.
Qed.

Lemma press_read (n : nat) (b : bool) (env : list (Time * bool))
  (c : Connection) :
  isClosed c = false -> isPaused c = b -> length env = n ->
  snd (HandleMessages (reads_of (fst (press n b)) env) c) = Running /\
  isClosed (fst (HandleMessages (reads_of (fst (press n b)) env) c)) = false /\
  isPaused (fst (HandleMessages (reads_of (fst (press n b)) env) c))
  = snd (press n b).
Proof.
  revert b env c. induction n as [| n IH]; intros b env c Hc Hp Hlen.
  - destruct env; [| discriminate]. simpl. auto.
  - destruct env as [| [t up] env]; [discriminate |].
    injection Hlen as Hlen. simpl.
    destruct (press n (negb b)) as [ms s] eqn:E. simpl.
    set (m := if negb b then {| Type_ := "pause"; Data := DataNil |}
              else {| Type_ := "resume"; Data := DataNil |}).
    assert (isClosed (dispatch m t up c) = false /\
            isPaused (dispatch m t up c) = negb b) as [H1 H2].
    { subst m. unfold dispatch, SetPaused.
      destruct b; simpl; rewrite Hc; simpl; auto. }
    specialize (IH (negb b) env (dispatch m t up c) H1 H2 Hlen).
    rewrite E in IH. simpl in IH. exact IH.
Qed.

(** X9.  The client and the server agree on the pause state.  When the
    messages of [n] clicks on the pause button are read, in order, by the
    inbound task of an open connection whose flag equals the client's
    state before the clicks, the flag equals the client's state after
    them, which is the first state when [n] is even and its opposite when
    [n] is odd; the task is still running and the connection open. *)
Theorem paused_flag_follows_pause_button
  (n : nat) (b : bool) (env : list (Time * bool)) (c : Connection) :
  isClosed c = false -> isPaused c = b -> length env = n ->
  snd (HandleMessages (reads_of (fst (press n b)) env) c) = Running /\
  isClosed (fst (HandleMessages (reads_of (fst (press n b)) env) c)) = false /\
  isPaused (fst (HandleMessages (reads_of (fst (press n b)) env) c))
  = snd (press n b) /\
  snd (press n b) = (if Nat.even n then b else negb b).
Proof.
  intros Hc Hp Hlen.
  destruct (press_read n b env c Hc Hp Hlen) as (H1 & H2 & H3).
  repeat (split; [assumption |]). apply press_state.
Qed.

Lemma paused_flag_follows_pause_button_witness :
  isClosed fresh = false /\
  fst (press 3 false) = [pauseMessage; resumeMessage; pauseMessage] /\
  isPaused (fst (HandleMessages
                   (reads_of (fst (press 3 false)) [(1, true); (2, false); (3, true)])
                   fresh)) = true.
Proof.
  split; [reflexivity |]. split; [reflexivity |].
  destruct (paused_flag_follows_pause_button 3 false
              [(1, true); (2, false); (3, true)] fresh
              eq_refl eq_refl eq_refl) as (_ & _ & H & _).
  exact H.
Defined.

(** ** the health check, pass by pass *)

Lemma checkConnectionHealth_members (clock : ptr -> Time)
  (up taken : ptr -> bool) (w : World) (p : ptr) :
  connections (checkConnectionHealth clock up taken w) !! p
  = if IsClosed (heap w p) then None else connections w !! p.
Proof.
  apply (step_connections (EvHealthTick clock up taken) w _ p eq_refl).
Qed.

Lemma health_sweep_drop_keys (clock : ptr -> Time) (up : ptr -> bool)
  (ks : list ptr) (s : sweep) (p : ptr) :
  p ∈ sw_drop (health_sweep clock up ks s) -> p ∈ sw_drop s \/ p ∈ ks.
Proof.
  revert s. induction ks as [| q ks IH]; intros s H; simpl in H; [auto |].
  destruct (IH _ H) as [H1 | H1]; [| right; right; exact H1].
  rewrite health_turn_drop in H1.
  destruct (health_queues (clock q) (up q) (sw_heap s q)); [| auto].
  apply elem_of_app in H1 as [H1 | H1]; [auto |].
  apply list_elem_of_singleton in H1 as ->. right. left.
Qed.

(** X10.  A health-check pass deletes from the set exactly the members it
    finds closed, and acts on members only: a connection that is not in
    the set is left exactly as it was. *)
Theorem health_check_deletes_exactly_the_closed_members
  (clock : ptr -> Time) (up taken : ptr -> bool) (w : World) (p : ptr) :
  (p ∈ dom (connections (checkConnectionHealth clock up taken w)) <->
   p ∈ dom (connections w) /\ IsClosed (heap w p) = false) /\
  (p ∉ dom (connections w) ->
   heap (checkConnectionHealth clock up taken w) p = heap w p).
Proof.
  split.
  - rewrite !elem_of_dom, checkConnectionHealth_members.
    destruct (IsClosed (heap w p)).
    + split; [intros [b Hb]; discriminate | intros [_ H]; discriminate].
    + split; [auto | tauto].
  - intros Hnot.
    assert (p ∉ keys (connections w)) as Hk.
    { intros H. apply Hnot, elem_of_dom, elem_of_keys, H. }
    unfold checkConnectionHealth. simpl.
    rewrite drop_batch_other; simpl.
    + apply health_sweep_heap_other, Hk.
    + left. intros H. apply health_sweep_drop_keys in H as [H | H].
      * inversion H.
      * exact (Hk H).
Qed.

Lemma health_check_deletes_exactly_the_closed_members_witness :
  (2%positive ∉ dom (connections paused_world)) /\
  heap (checkConnectionHealth (at_time (11 * Second)) always never
          paused_world) 2%positive = heap paused_world 2%positive.
Proof.
  assert (2%positive ∉ dom (connections paused_world)) as H.
  { intros H. apply elem_of_dom in H as [b Hb]. discriminate Hb. }
  split; [exact H |].
  apply (health_check_deletes_exactly_the_closed_members
           (at_time (11 * Second)) always never paused_world 2%positive), H.
Defined.

(** X11.  A member that is open, paused and idle for more than ten
    seconds at a health-check pass is gone from the set after the next
    pass, when [h.unregister] does not take it: the first pass closes it
    and keeps the key, the second deletes the key. *)
Theorem stale_paused_member_is_deleted_by_second_pass
  (clock clock' : ptr -> Time) (up taken up' taken' : ptr -> bool)
  (w : World) (p : ptr) :
  p ∈ dom (connections w) ->
  isClosed (heap w p) = false ->
  isPaused (heap w p) = true ->
  clock p - lastSent (heap w p) > 10 * Second ->
  taken p = false ->
  p ∈ dom (connections (checkConnectionHealth clock up taken w)) /\
  isClosed (heap (checkConnectionHealth clock up taken w) p) = true /\
  p ∉ dom (connections
             (checkConnectionHealth clock' up' taken'
                (checkConnectionHealth clock up taken w))).
Proof.
  intros Hin Hc Hp Hidle Ht.
  assert (health_queues (clock p) (up p) (heap w p) = true) as Hq.
  { unfold health_queues, IsClosed, shouldDrop. rewrite Hc, Hp.
    rewrite (Since_exceeds _ _ _ ten_seconds_in_range).
    destruct (Z.gtb_spec (clock p - lastSent (heap w p)) (10 * Second));
      [reflexivity | lia]. }
  apply elem_of_dom in Hin.
  pose proof (checkConnectionHealth_closes_queued clock up taken w p
                Hin Hq Ht) as Hclosed.
  split; [| split; [exact Hclosed |]].
  - apply elem_of_dom. rewrite checkConnectionHealth_members.
    unfold IsClosed. rewrite Hc. exact Hin.
  - rewrite elem_of_dom, checkConnectionHealth_members.
    unfold IsClosed. rewrite Hclosed. intros [b Hb]; discriminate.
Qed.

Lemma stale_paused_member_is_deleted_by_second_pass_witness :
  1%positive ∈ dom (connections paused_world) /\
  11 * Second - lastSent (heap paused_world 1%positive) > 10 * Second /\
  1%positive ∉ dom (connections
                      (checkConnectionHealth (at_time (13 * Second)) always never
                         (checkConnectionHealth (at_time (11 * Second)) always
                            never paused_world))).
Proof.
  assert (1%positive ∈ dom (connections paused_world)) as Hin.
  { apply elem_of_dom. exists true. reflexivity. }
  assert (11 * Second - lastSent (heap paused_world 1%positive) > 10 * Second)
    as Hidle by (unfold Second; simpl; lia).
  split; [exact Hin |]. split; [exact Hidle |].
  apply (stale_paused_member_is_deleted_by_second_pass
           (at_time (11 * Second)) (at_time (13 * Second))
           always never always never paused_world 1%positive Hin
           eq_refl eq_refl Hidle eq_refl).
Defined.

(** X12.  A failed write of the outbound task is followed by removal: when
    a member with a queued message meets a write error, the connection is
    closed, and the next health-check pass deletes it from the set. *)
Theorem write_failure_then_health_check_removes_member
  (clock : ptr -> Time) (up taken : ptr -> bool) (w : World) (p : ptr)
  (m : WebSocketMessage) (rest : list WebSocketMessage) :
  p ∈ dom (connections w) ->
  buf (channel (heap w p)) = m :: rest ->
  exists w',
    run [EvConn p (OpOutbound false); EvHealthTick clock up taken] w = Some w' /\
    isClosed (heap w' p) = true /\
    p ∉ dom (connections w').
Proof.
  intros Hin Hb.
  destruct (Send_write_failure_closes_aux false (heap w p) m rest Hb
              (or_introl eq_refl)) as (_ & _ & _ & Hclosed & _).
  set (w1 := with_heap (<[p := fst (Send_step false (heap w p))]> (heap w)) w).
  assert (isClosed (heap w1 p) = true) as Hc1.
  { subst w1. simpl. rewrite fn_lookup_insert. exact Hclosed. }
  exists (checkConnectionHealth clock up taken w1).
  split; [reflexivity |]. split.
  - eapply closed_or_probed_isClosed; [| exact Hc1].
    apply (hub_step_closed_or_probed (EvHealthTick clock up taken)
             w1 _ p eq_refl eq_refl).
  - rewrite elem_of_dom, checkConnectionHealth_members.
    unfold IsClosed. rewrite Hc1. intros [b Hb']. discriminate.
Qed.

Lemma write_failure_then_health_check_removes_member_witness :
  1%positive ∈ dom (connections queued_world) /\
  exists w',
    run [EvConn 1%positive (OpOutbound false);
         EvHealthTick (at_time Second) always never] queued_world = Some w' /\
    isClosed (heap w' 1%positive) = true /\
    1%positive ∉ dom (connections w').
Proof.
  assert (1%positive ∈ dom (connections queued_world)) as Hin.
  { apply elem_of_dom. exists true. reflexivity. }
  split; [exact Hin |].
  apply (write_failure_then_health_check_removes_member
           (at_time Second) always never queued_world 1%positive
           logMessage [] Hin eq_refl).
Defined.

(** ** the broadcast *)

Lemma broadcast_filter_active_eq (taken : ptr -> bool) (ks : list ptr)
  (f : filtered) :
  fl_active (broadcast_filter taken ks f) =
  fl_active f ++ List.filter (fun p => negb (IsClosed (fl_heap f p))) ks.
Proof.
  revert f. induction ks as [| q ks IH]; intros f; simpl.
  - rewrite app_nil_r. reflexivity.
  - rewrite IH.
    rewrite (List.filter_ext
               (fun p => negb (IsClosed (fl_heap (broadcast_turn taken q f) p)))
               (fun p => negb (IsClosed (fl_heap f p))))
      by (intros p; rewrite broadcast_turn_heap; reflexivity).
    unfold broadcast_turn. destruct (IsClosed (fl_heap f q)); simpl.
    + destruct (taken q); reflexivity.
    + rewrite <- app_assoc. reflexivity.
Qed.

Lemma keys_empty (m : gmap ptr bool) : size m = 0%nat -> keys m = [].
Proof.
  intros H. apply map_size_empty_iff in H. subst. unfold keys.
  rewrite map_to_list_empty. reflexivity.
Qed.

Lemma broadcast_deliveries (logEntry : WebSocketMessage) (taken : ptr -> bool)
  (w : World) :
  deliveries (broadcast logEntry taken w)
  = deliveries w ++ map (spawn logEntry) (open_keys w).
Proof.
  unfold broadcast, open_keys.
  destruct (Nat.eqb_spec (size (connections w)) 0) as [Hz | Hz].
  - rewrite (keys_empty _ Hz). simpl. rewrite app_nil_r. reflexivity.
  - simpl. rewrite broadcast_filter_active_eq. reflexivity.
Qed.

Lemma elem_of_open_keys (w : World) (p : ptr) :
  p ∈ open_keys w <-> p ∈ dom (connections w) /\ isClosed (heap w p) = false.
Proof.
  unfold open_keys, IsClosed.
  rewrite list_elem_of_In, List.filter_In, <- list_elem_of_In.
  rewrite elem_of_keys, elem_of_dom, negb_true_iff. reflexivity.
Qed.

Lemma NoDup_open_keys (w : World) : NoDup (open_keys w).
Proof.
  unfold open_keys. apply NoDup_ListNoDup, List.NoDup_filter.
  apply NoDup_ListNoDup, NoDup_keys.
Qed.

(** X13.  A broadcast starts one delivery goroutine for each member it
    finds open, and for no other connection: the new goroutines are
    appended to the running ones, one per open member without
    repetition, each at its first call and carrying the broadcast
    message.  The broadcast itself changes no connection, and with an
    empty set it changes nothing at all. *)
Theorem broadcast_starts_one_delivery_per_open_member
  (logEntry : WebSocketMessage) (taken : ptr -> bool) (w : World) :
  deliveries (broadcast logEntry taken w)
  = deliveries w ++ map (spawn logEntry) (open_keys w) /\
  NoDup (open_keys w) /\
  (forall p, p ∈ open_keys w <->
             p ∈ dom (connections w) /\ isClosed (heap w p) = false) /\
  (forall p, heap (broadcast logEntry taken w) p = heap w p) /\
  (connections w = ∅ -> broadcast logEntry taken w = w).
Proof.
  split; [apply broadcast_deliveries |].
  split; [apply NoDup_open_keys |].
  split; [apply elem_of_open_keys |].
  split; [apply broadcast_heap |].
  intros Hempty. unfold broadcast. rewrite Hempty. reflexivity.
Qed.

Lemma map_lookup_Some {A B : Type} (f : A -> B) (l : list A) (i : nat) (x : A) :
  l !! i = Some x -> map f l !! i = Some (f x).
Proof.
  revert i. induction l as [| a l IH]; intros [| i] H; simpl in *;
    try discriminate.
  - injection H as ->. reflexivity.
  - apply IH, H.
Qed.

(** The three calls of a delivery goroutine whose connection is open, not
    paused and has room: the message is appended to the queue. *)
Lemma delivery_runs (w : World) (i : nat) (d : delivery) (t1 t2 t3 : Time) :
  deliveries w !! i = Some d -> d_pc d = AtIsPaused ->
  conn_ok (heap w (d_conn d)) ->
  isClosed (heap w (d_conn d)) = false ->
  isPaused (heap w (d_conn d)) = false ->
  (length (buf (channel (heap w (d_conn d))))
   < cap (channel (heap w (d_conn d))))%nat ->
  exists w',
    run [EvDeliver i t1; EvDeliver i t2; EvDeliver i t3] w = Some w' /\
    connections w' = connections w /\
    (forall q, q <> d_conn d -> heap w' q = heap w q) /\
    heap w' (d_conn d)
    = with_lastSent t3
        (with_channel
           (with_buf (buf (channel (heap w (d_conn d))) ++ [d_msg d])
              (channel (heap w (d_conn d))))
           (heap w (d_conn d))).
Proof.
  intros Hd Hpc Hok Hc Hp Hroom.
  pose proof (lookup_lt_Some _ _ _ Hd) as Hlt.
  unfold run. cbn [step]. rewrite Hd. unfold delivery_step at 1.
  rewrite Hpc. unfold IsPaused. rewrite Hp.
  cbn [step deliveries heap]. rewrite list_lookup_insert_eq by exact Hlt.
  unfold delivery_step at 1. cbn [d_pc at_pc d_conn].
  assert (shouldDrop t2 (heap w (d_conn d)) = false) as ->.
  { unfold shouldDrop. rewrite Hc, Hp. reflexivity. }
  cbn [step deliveries heap].
  rewrite list_lookup_insert_eq by (rewrite length_insert; exact Hlt).
  unfold delivery_step at 1. cbn [d_pc at_pc d_conn d_msg].
  rewrite sendLog_room by auto using conn_ok_open.
  eexists. split; [reflexivity |]. cbn [connections heap].
  split; [reflexivity |]. split.
  - intros q Hq. apply fn_lookup_insert_ne. congruence.
  - apply fn_lookup_insert.
Qed.

(** A broadcast followed by the three calls of the goroutine it starts
    for an open, unpaused member with room. *)
Lemma broadcast_delivers
  (logEntry : WebSocketMessage) (taken : ptr -> bool) (w : World) (p : ptr)
  (t1 t2 t3 : Time) :
  p ∈ dom (connections w) ->
  conn_ok (heap w p) ->
  isClosed (heap w p) = false ->
  isPaused (heap w p) = false ->
  (length (buf (channel (heap w p))) < cap (channel (heap w p)))%nat ->
  exists i w',
    deliveries (broadcast logEntry taken w) !! i = Some (spawn logEntry p) /\
    run [EvBroadcast logEntry taken;
         EvDeliver i t1; EvDeliver i t2; EvDeliver i t3] w = Some w' /\
    heap w' p
    = with_lastSent t3
        (with_channel
           (with_buf (buf (channel (heap w p)) ++ [logEntry])
              (channel (heap w p)))
           (heap w p)) /\
    connections w' = connections (broadcast logEntry taken w) /\
    (forall q, q <> p -> heap w' q = heap w q).
Proof.
  intros Hin Hok Hc Hp Hroom.
  assert (p ∈ open_keys w) as Hopen by (apply elem_of_open_keys; auto).
  apply list_elem_of_lookup_1 in Hopen as [j Hj].
  set (wb := broadcast logEntry taken w).
  assert (deliveries wb !! (length (deliveries w) + j)%nat
          = Some (spawn logEntry p)) as Hd.
  { subst wb. rewrite broadcast_deliveries, lookup_app_r by lia.
    replace (length (deliveries w) + j - length (deliveries w))%nat with j
      by lia.
    apply map_lookup_Some, Hj. }
  assert (heap wb p = heap w p) as Hh by apply broadcast_heap.
  destruct (delivery_runs wb _ (spawn logEntry p) t1 t2 t3 Hd eq_refl)
    as (w' & Hrun & H1 & H2 & H3); simpl; rewrite ?Hh; auto.
  exists (length (deliveries w) + j)%nat, w'.
  split; [exact Hd |]. split; [exact Hrun |].
  simpl in H3. rewrite H3, Hh.
  split; [reflexivity |]. split; [exact H1 |].
  intros q Hq. rewrite (H2 q Hq). apply broadcast_heap.
Qed.

(** X14.  A broadcast reaches every member that is open, not paused and
    has room in its queue: one of the goroutines the broadcast starts is
    for that member, and its three calls append the broadcast message to
    the member's queue and set the timestamp, leaving the set and the
    other connections as they were. *)
Theorem broadcast_reaches_open_unpaused_member
  (logEntry : WebSocketMessage) (taken : ptr -> bool) (w : World) (p : ptr)
  (t1 t2 t3 : Time) :
  p ∈ dom (connections w) ->
  conn_ok (heap w p) ->
  isClosed (heap w p) = false ->
  isPaused (heap w p) = false ->
  (length (buf (channel (heap w p))) < cap (channel (heap w p)))%nat ->
  exists i w',
    deliveries (broadcast logEntry taken w) !! i = Some (spawn logEntry p) /\
    run [EvBroadcast logEntry taken;
         EvDeliver i t1; EvDeliver i t2; EvDeliver i t3] w = Some w' /\
    buf (channel (heap w' p)) = buf (channel (heap w p)) ++ [logEntry] /\
    lastSent (heap w' p) = t3 /\
    connections w' = connections (broadcast logEntry taken w) /\
    (forall q, q <> p -> heap w' q = heap w q).
Proof.
  intros Hin Hok Hc Hp Hroom.
  destruct (broadcast_delivers logEntry taken w p t1 t2 t3 Hin Hok Hc Hp Hroom)
    as (i & w' & H1 & H2 & H3 & H4 & H5).
  exists i, w'. rewrite H3. simpl. auto 10.
Qed.

Lemma broadcast_reaches_open_unpaused_member_witness :
  1%positive ∈ dom (connections queued_world) /\
  exists i w',
    deliveries (broadcast pingMessage never queued_world) !! i
    = Some (spawn pingMessage 1%positive) /\
    run [EvBroadcast pingMessage never;
         EvDeliver i 5; EvDeliver i 6; EvDeliver i 7] queued_world = Some w' /\
    buf (channel (heap w' 1%positive)) = [logMessage; pingMessage] /\
    lastSent (heap w' 1%positive) = 7.
Proof.
  assert (1%positive ∈ dom (connections queued_world)) as Hin.
  { apply elem_of_dom. exists true. reflexivity. }
  split; [exact Hin |].
  destruct (broadcast_reaches_open_unpaused_member pingMessage never
              queued_world 1%positive 5 6 7 Hin)
    as (i & w' & H1 & H2 & H3 & H4 & _).
  - intros H. discriminate H.
  - reflexivity.
  - reflexivity.
  - simpl. lia.
  - exists i, w'. auto.
Defined.

(** ** unregistering *)

(** X15.  The unregister case always closes the connection it receives
    and leaves it out of the set, member or not; for a connection that
    was not a member the set is unchanged; the other connections and
    their membership are untouched; and a second unregister of the same
    connection changes neither the set nor any connection. *)
Theorem unregister_closes_and_is_idempotent (p : ptr) (w : World) :
  exists w',
    step (EvUnregister p) w = Some w' /\
    (p ∉ dom (connections w')) /\
    isClosed (heap w' p) = true /\
    (forall q, q <> p ->
               (q ∈ dom (connections w') <-> q ∈ dom (connections w)) /\
               heap w' q = heap w q) /\
    (p ∉ dom (connections w) -> connections w' = connections w) /\
    exists w'',
      step (EvUnregister p) w' = Some w'' /\
      connections w'' = connections w' /\
      forall q, heap w'' q = heap w' q.
Proof.
  eexists. split; [reflexivity |]. cbn [connections heap].
  split; [rewrite elem_of_dom, lookup_delete_eq; intros [b Hb]; discriminate |].
  split; [rewrite fn_lookup_insert; apply Close_isClosed |].
  split; [| split].
  - intros q Hq. split.
    + rewrite !elem_of_dom, lookup_delete_ne by congruence. reflexivity.
    + apply fn_lookup_insert_ne. congruence.
  - intros Hnot. apply delete_id. apply not_elem_of_dom. exact Hnot.
  - eexists. split; [reflexivity |]. cbn [connections heap].
    split; [apply delete_delete_eq |].
    intros q. unfold insert, fn_insert. destruct (decide (p = q)); [| reflexivity].
    destruct (decide (p = p)); [| congruence]. apply Close_idempotent.
Qed.

(** ** accepting a connection *)

Lemma run_app (es1 es2 : list event) (w : World) :
  run (es1 ++ es2) w =
  match run es1 w with
  | Some w' => run es2 w'
  | None => None
  end.
Proof.
  revert w. induction es1 as [| e es1 IH]; intros w; simpl; [reflexivity |].
  destruct (step e w); [apply IH | reflexivity].
Qed.

(** X16.  When the hub does not receive the registration within the
    timeout, [HandleWebSocket] closes the connection it has just made
    (flag set, empty channel closed), sends nothing to the hub, starts
    neither task and leaves the set and the other connections as they
    were; the socket itself is left as the upgrade returned it.  When the
    upgrade fails the world is unchanged. *)
Theorem registration_timeout_closes_the_new_connection
  (conn : WsConn) (connection : ptr) (now : Time) (received : bool)
  (w : World) :
  (let r := HandleWebSocket (UpgradeOk conn) connection now false w in
   hw_register r = None /\ hw_started r = false /\
   connections (hw_world r) = connections w /\
   deliveries (hw_world r) = deliveries w /\
   isClosed (heap (hw_world r) connection) = true /\
   channel (heap (hw_world r) connection)
   = {| buf := []; cap := 100; chan_closed := true |} /\
   ws (heap (hw_world r) connection) = conn /\
   (forall q, q <> connection -> heap (hw_world r) q = heap w q)) /\
  HandleWebSocket UpgradeErr connection now received w
  = {| hw_world := w; hw_register := None; hw_started := false |}.
Proof.
  split; [| reflexivity]. cbn [HandleWebSocket hw_world hw_register hw_started].
  cbn [with_heap heap connections deliveries].
  rewrite !fn_lookup_insert.
  repeat (split; [reflexivity |]).
  intros q Hq. rewrite !fn_lookup_insert_ne by congruence. reflexivity.
Qed.

(** X17.  End to end.  A connection accepted by [HandleWebSocket] over an
    open socket is registered by the hub; a broadcast made after that
    starts a goroutine for it, the goroutine puts the broadcast message
    into its queue, and the next turn of its outbound task, with the
    network up, writes exactly that message to its wire and leaves the
    queue empty and the connection open and in the set. *)
Theorem accepted_connection_receives_the_broadcast
  (conn : WsConn) (connection : ptr) (now t1 t2 t3 : Time) (w : World)
  (logEntry : WebSocketMessage) (taken : ptr -> bool) :
  ws_closed conn = false ->
  hw_register (HandleWebSocket (UpgradeOk conn) connection now true w)
  = Some connection /\
  hw_started (HandleWebSocket (UpgradeOk conn) connection now true w) = true /\
  exists i w',
    run [EvRegister connection; EvBroadcast logEntry taken;
         EvDeliver i t1; EvDeliver i t2; EvDeliver i t3;
         EvConn connection (OpOutbound true)]
        (hw_world (HandleWebSocket (UpgradeOk conn) connection now true w))
    = Some w' /\
    connection ∈ dom (connections w') /\
    wire (ws (heap w' connection)) = wire conn ++ [logEntry] /\
    buf (channel (heap w' connection)) = [] /\
    isClosed (heap w' connection) = false.
Proof.
  intros Hopen. split; [reflexivity |]. split; [reflexivity |].
  cbn [HandleWebSocket hw_world].
  set (w1 := with_heap (<[connection := NewConnection conn now]> (heap w)) w).
  set (w2 := {| heap := heap w1;
                connections := <[connection := true]> (connections w1);
                unregister_sent := unregister_sent w1;
                deliveries := deliveries w1 |}).
  assert (heap w2 connection = NewConnection conn now) as Hh.
  { subst w2 w1. simpl. apply fn_lookup_insert. }
  assert (connection ∈ dom (connections w2)) as Hin.
  { subst w2. simpl. rewrite elem_of_dom, lookup_insert_eq. eauto. }
  destruct (broadcast_delivers logEntry taken w2 connection t1 t2 t3 Hin)
    as (i & w3 & _ & Hrun & H1 & H2 & _).
  { rewrite Hh. apply NewConnection_ok. }
  { rewrite Hh. reflexivity. }
  { rewrite Hh. reflexivity. }
  { rewrite Hh. simpl. lia. }
  rewrite Hh in H1. simpl in H1.
  exists i.
  change [EvRegister connection; EvBroadcast logEntry taken;
          EvDeliver i t1; EvDeliver i t2; EvDeliver i t3;
          EvConn connection (OpOutbound true)]
    with ([EvRegister connection] ++
          [EvBroadcast logEntry taken;
           EvDeliver i t1; EvDeliver i t2; EvDeliver i t3] ++
          [EvConn connection (OpOutbound true)]).
  rewrite run_app. cbn [run step]. fold w2.
  rewrite run_app, Hrun. cbn [run step conn_step].
  eexists. split; [reflexivity |]. cbn [with_heap heap connections].
  rewrite fn_lookup_insert, H1. unfold Send_step, WriteJSON. simpl.
  rewrite Hopen. simpl. split; [| auto].
  rewrite H2. apply elem_of_dom.
  rewrite (step_connections (EvBroadcast logEntry taken) w2 _ connection
             eq_refl).
  cbn [registers unregisters]. unfold IsClosed. rewrite Hh.
  change (isClosed (NewConnection conn now)) with false. cbn [andb].
  subst w2. cbn [connections]. rewrite lookup_insert_eq. eauto.
Qed.

Lemma accepted_connection_receives_the_broadcast_witness :
  ws_closed ws0 = false /\
  exists i w',
    run [EvRegister 5%positive; EvBroadcast logMessage never;
         EvDeliver i 2; EvDeliver i 3; EvDeliver i 4;
         EvConn 5%positive (OpOutbound true)]
        (hw_world (HandleWebSocket (UpgradeOk ws0) 5%positive 1 true
                     paused_world))
    = Some w' /\
    5%positive ∈ dom (connections w') /\
    wire (ws (heap w' 5%positive)) = wire ws0 ++ [logMessage] /\
    buf (channel (heap w' 5%positive)) = [] /\
    isClosed (heap w' 5%positive) = false.
Proof.
  split; [reflexivity |].
  apply (accepted_connection_receives_the_broadcast ws0 5%positive 1 2 3 4
           paused_world logMessage never eq_refl).
Defined.

(** ** the log generator *)

(** X18.  For every index that [rand.Intn(len(levels))] can return,
    [GenerateMockLog] does not panic; the level of the log is INFO, WARN
    or ERROR, its message is the fixed prefix followed by the argument,
    and its timestamp is the current time.  An index outside the table
    would panic. *)
Theorem GenerateMockLog_level_is_in_the_table
  (r : nat) (message : string) (now : Time) :
  ((r < length levels)%nat ->
   exists l, GenerateMockLog r message now = Some l /\
             (Level l = "INFO"%string \/ Level l = "WARN"%string \/
              Level l = "ERROR"%string) /\
             Message l = String.append "This is a mock log message" message /\
             Timestamp l = now) /\
  ((length levels <= r)%nat -> GenerateMockLog r message now = None).
Proof.
  unfold GenerateMockLog. split.
  - intros Hr. simpl in Hr.
    destruct r as [| [| [| r]]]; [| | | lia]; simpl;
      eexists; (split; [reflexivity |]); simpl; auto.
  - intros Hr. rewrite (lookup_ge_None_2 levels r) by exact Hr. reflexivity.
Qed.

Lemma GenerateMockLog_level_is_in_the_table_witness :
  (2 < length levels)%nat /\
  exists l, GenerateMockLog 2 " - Test message 1" 7 = Some l /\
            Level l = "ERROR"%string /\
            Message l = "This is a mock log message - Test message 1"%string.
Proof.
  assert (2 < length levels)%nat as H by (simpl; lia).
  split; [exact H |].
  destruct (proj1 (GenerateMockLog_level_is_in_the_table
                     2 " - Test message 1" 7) H) as (l & H1 & _ & H3 & _).
  exists l. split; [exact H1 |]. split; [| exact H3].
  injection H1 as <-. reflexivity.
Defined.

(** ** the level filter of the client *)

Lemma toggleLogLevel_all_is_alone (level : string) (s : gset string) :
  all_is_alone (toggleLogLevel level s).
Proof.
  unfold all_is_alone, toggleLogLevel.
  destruct (decide (level = "all"%string)) as [-> | Hne].
  - destruct (decide ("all"%string ∈ s)); [| reflexivity].
    intros H. apply elem_of_empty in H. contradiction.
  - destruct (decide ("all"%string ∈ s)) as [Hall | Hall].
    + intros H. apply elem_of_singleton in H. congruence.
    + destruct (decide (level ∈ s)).
      * destruct (decide (size (s ∖ {[level]}) = 0%nat)); [reflexivity |].
        intros H. apply elem_of_difference in H as [H _]. contradiction.
      * destruct (decide (size (s ∪ {[level]}) = 0%nat)); [reflexivity |].
        intros H. apply elem_of_union in H as [H | H]; [contradiction |].
        apply elem_of_singleton in H. congruence.
Qed.

(** X19.  From the initial selection, whatever buttons are clicked, "all"
    is never selected together with a level: a selection that contains
    "all" is exactly the set with "all" alone. *)
Theorem all_is_never_combined_with_a_level (clicks : list string) :
  "all"%string ∈ toggle_all clicks initialLogLevels ->
  toggle_all clicks initialLogLevels = {["all"%string]}.
Proof.
  unfold toggle_all.
  destruct clicks as [| level clicks _] using rev_ind.
  - intros _. reflexivity.
  - rewrite foldl_app. simpl. apply toggleLogLevel_all_is_alone.
Qed.

Lemma all_is_never_combined_with_a_level_witness :
  "all"%string ∈ toggle_all ["INFO"; "WARN"; "INFO"; "WARN"]%string
                   initialLogLevels /\
  toggle_all ["INFO"; "WARN"; "INFO"; "WARN"]%string initialLogLevels
  = {["all"%string]}.
Proof.
  assert ("all"%string ∈ toggle_all ["INFO"; "WARN"; "INFO"; "WARN"]%string
                           initialLogLevels) as H.
  { vm_compute. reflexivity. }
  split; [exact H |].
  apply (all_is_never_combined_with_a_level _ H).
Defined.

Lemma size_zero_empty (X : gset string) : size X = 0%nat -> X = ∅.
Proof. intros H. apply leibniz_equiv, size_empty_inv, H. Qed.

Lemma toggle_level_back (level : string) (s : gset string) :
  level <> "all"%string -> s <> ∅ -> all_is_alone s ->
  toggleLogLevel level (toggleLogLevel level s) = s.
Proof.
  intros Hne Hs Halone. unfold toggleLogLevel.
  destruct (decide (level = "all"%string)) as [| _]; [contradiction |].
  destruct (decide ("all"%string ∈ s)) as [Hall | Hall].
  - rewrite (Halone Hall).
    destruct (decide ("all"%string ∈ ({[level]} : gset string))) as [H | _].
    { apply elem_of_singleton in H. congruence. }
    destruct (decide (level ∈ ({[level]} : gset string))) as [_ | H].
    2: { exfalso. apply H. apply elem_of_singleton. reflexivity. }
    destruct (decide (size (({[level]} : gset string) ∖ {[level]}) = 0%nat))
      as [_ | H]; [reflexivity |].
    exfalso. apply H. rewrite difference_diag_L. apply size_empty.
  - destruct (decide (level ∈ s)) as [Hin | Hin].
    + destruct (decide (size (s ∖ {[level]}) = 0%nat)) as [Hz | Hz].
      * apply size_zero_empty in Hz.
        destruct (decide ("all"%string ∈ ({["all"%string]} : gset string)))
          as [_ | H].
        2: { exfalso. apply H. apply elem_of_singleton. reflexivity. }
        apply leibniz_equiv. intros x. rewrite elem_of_singleton. split.
        -- intros ->. exact Hin.
        -- intros Hx. destruct (decide (x = level)) as [| Hxl]; [assumption |].
           exfalso.
           assert (x ∈ s ∖ {[level]}) as H'.
           { apply elem_of_difference. split; [exact Hx |].
             rewrite elem_of_singleton. exact Hxl. }
           rewrite Hz in H'. apply elem_of_empty in H'. exact H'.
      * destruct (decide ("all"%string ∈ s ∖ {[level]})) as [H | _].
        { apply elem_of_difference in H as [H _]. contradiction. }
        destruct (decide (level ∈ s ∖ {[level]})) as [H | _].
        { apply elem_of_difference in H as [_ H]. exfalso. apply H.
          apply elem_of_singleton. reflexivity. }
        assert (s ∖ {[level]} ∪ {[level]} = s) as ->.
        { apply leibniz_equiv. intros x. rewrite elem_of_union,
            elem_of_difference, elem_of_singleton.
          destruct (decide (x = level)) as [-> |]; tauto. }
        destruct (decide (size s = 0%nat)) as [H | _]; [| reflexivity].
        apply size_zero_empty in H. contradiction.
    + destruct (decide (size (s ∪ {[level]}) = 0%nat)) as [Hz | _].
      { apply size_zero_empty in Hz. exfalso.
        assert (level ∈ s ∪ {[level]}) as H
            by (apply elem_of_union; right; apply elem_of_singleton; reflexivity).
        rewrite Hz in H. apply elem_of_empty in H. exact H. }
      destruct (decide ("all"%string ∈ s ∪ {[level]})) as [H | _].
      { apply elem_of_union in H as [H | H]; [contradiction |].
        apply elem_of_singleton in H. congruence. }
      destruct (decide (level ∈ s ∪ {[level]})) as [_ | H].
      2: { exfalso. apply H. apply elem_of_union. right.
           apply elem_of_singleton. reflexivity. }
      assert ((s ∪ {[level]}) ∖ {[level]} = s) as ->.
      { apply leibniz_equiv. intros x. rewrite elem_of_difference,
          elem_of_union, elem_of_singleton.
        destruct (decide (x = level)) as [-> |]; tauto. }
      destruct (decide (size s = 0%nat)) as [H | _]; [| reflexivity].
      apply size_zero_empty in H. contradiction.
Qed.

(** Deselecting the only selected level selects "all"; selecting a level
    in the empty selection selects that level. *)
Lemma clicking_a_level_twice_aux (level : string) :
  level <> "all"%string ->
  toggleLogLevel level {[level]} = {["all"%string]} /\
  toggleLogLevel level ∅ = {[level]}.
Proof.
  intros Hne. split.
  - unfold toggleLogLevel.
    destruct (decide (level = "all"%string)); [contradiction |].
    destruct (decide ("all"%string ∈ ({[level]} : gset string))) as [H | _].
    { apply elem_of_singleton in H. congruence. }
    destruct (decide (level ∈ ({[level]} : gset string))) as [_ | H].
    2: { exfalso. apply H. apply elem_of_singleton. reflexivity. }
    destruct (decide (size (({[level]} : gset string) ∖ {[level]}) = 0%nat))
      as [_ | H]; [reflexivity |].
    exfalso. apply H. rewrite difference_diag_L. apply size_empty.
  - unfold toggleLogLevel.
    destruct (decide (level = "all"%string)); [contradiction |].
    destruct (decide ("all"%string ∈ (∅ : gset string))) as [H | _].
    { apply elem_of_empty in H. contradiction. }
    destruct (decide (level ∈ (∅ : gset string))) as [H | _].
    { apply elem_of_empty in H. contradiction. }
    rewrite union_empty_l_L.
    destruct (decide (size ({[level]} : gset string) = 0%nat)) as [H | _];
      [| reflexivity].
    rewrite size_singleton in H. discriminate.
Qed.

(** X20.  Clicking the button of a level twice gives back the selection,
    for every selection that is not empty and in which "all", when
    present, is alone; this includes the step through "all" when the
    only selected level is deselected.  From the empty selection the two
    clicks end at "all" alone. *)
Theorem clicking_a_level_twice_restores_the_selection
  (level : string) (s : gset string) :
  level <> "all"%string ->
  (s <> ∅ -> all_is_alone s ->
   toggleLogLevel level (toggleLogLevel level s) = s) /\
  toggleLogLevel level {[level]} = {["all"%string]} /\
  toggleLogLevel level (toggleLogLevel level ∅) = {["all"%string]}.
Proof.
  intros Hne. split; [apply toggle_level_back, Hne |].
  destruct (clicking_a_level_twice_aux level Hne) as [H1 H2].
  split; [exact H1 |]. rewrite H2. exact H1.
Qed.

Lemma clicking_a_level_twice_restores_the_selection_witness :
  ("INFO"%string <> "all"%string) /\
  toggleLogLevel "INFO" (toggleLogLevel "INFO" {["WARN"%string]})
  = {["WARN"%string]} /\
  toggleLogLevel "INFO" (toggleLogLevel "INFO" initialLogLevels)
  = initialLogLevels.
Proof.
  assert ("INFO"%string <> "all"%string) as Hne by (intros H; discriminate H).
  destruct (clicking_a_level_twice_restores_the_selection "INFO"
              {["WARN"%string]} Hne) as (H1 & _).
  destruct (clicking_a_level_twice_restores_the_selection "INFO"
              initialLogLevels Hne) as (H2 & _).
  split; [exact Hne |]. split.
  - apply H1.
    + intros H. assert ("WARN"%string ∈ (∅ : gset string)) as H'
          by (rewrite <- H; apply elem_of_singleton; reflexivity).
      apply elem_of_empty in H'. exact H'.
    + intros H. apply elem_of_singleton in H. discriminate H.
  - apply H2.
    + intros H. assert ("all"%string ∈ (∅ : gset string)) as H'
          by (rewrite <- H; apply elem_of_singleton; reflexivity).
      apply elem_of_empty in H'. exact H'.
    + intros _. reflexivity.
Defined.

(** ** what the client displays *)

Lemma filter_sublist {A : Type} (f : A -> bool) (l : list A) :
  List.filter f l `sublist_of` l.
Proof.
  induction l as [| x l IH]; simpl; [constructor |].
  destruct (f x); constructor; exact IH.
Qed.

(** X21.  The client displays exactly the logs whose level is selected,
    or all of them when "all" is selected; the displayed logs keep the
    order of the received ones and are never more than them. *)
Theorem getFilteredLogs_shows_the_selected_levels
  {A : Type} (level : A -> string) (logs : list A) (sel : gset string) :
  (forall x, In x (getFilteredLogs level logs sel) <->
             In x logs /\ ("all"%string ∈ sel \/ level x ∈ sel)) /\
  getFilteredLogs level logs sel `sublist_of` logs /\
  (length (getFilteredLogs level logs sel) <= length logs)%nat.
Proof.
  assert (getFilteredLogs level logs sel `sublist_of` logs) as Hsub.
  { unfold getFilteredLogs. destruct (decide ("all"%string ∈ sel));
      [reflexivity | apply filter_sublist]. }
  split; [| split; [exact Hsub | apply sublist_length, Hsub]].
  intros x. unfold getFilteredLogs.
  destruct (decide ("all"%string ∈ sel)) as [Hall | Hall].
  - tauto.
  - rewrite List.filter_In, bool_decide_eq_true. tauto.
Qed.

(** X22.  The "all" button switches between everything and nothing:
    clicked while "all" is selected it empties the selection and no log is
    displayed; clicked otherwise it selects "all" alone and every log is
    displayed.  Deselecting the only selected level displays every log
    again. *)
Theorem all_button_shows_everything_or_nothing
  {A : Type} (level : A -> string) (logs : list A) (sel : gset string)
  (l : string) :
  getFilteredLogs level logs (toggleLogLevel "all" sel)
  = (if decide ("all"%string ∈ sel) then [] else logs) /\
  (l <> "all"%string ->
   getFilteredLogs level logs (toggleLogLevel l {[l]}) = logs).
Proof.
  split.
  - unfold toggleLogLevel.
    destruct (decide ("all"%string = "all"%string)); [| congruence].
    destruct (decide ("all"%string ∈ sel)).
    + unfold getFilteredLogs.
      destruct (decide ("all"%string ∈ (∅ : gset string))) as [H | _].
      { apply elem_of_empty in H. contradiction. }
      induction logs as [| x logs IH]; simpl; [reflexivity |].
      destruct (bool_decide_reflect (level x ∈ (∅ : gset string))) as [H | _];
        [| exact IH].
      apply elem_of_empty in H. contradiction.
    + unfold getFilteredLogs.
      destruct (decide ("all"%string ∈ ({["all"%string]} : gset string)))
        as [_ | H]; [reflexivity |].
      exfalso. apply H. apply elem_of_singleton. reflexivity.
  - intros Hne.
    destruct (clicking_a_level_twice_aux l Hne) as [-> _].
    unfold getFilteredLogs.
    destruct (decide ("all"%string ∈ ({["all"%string]} : gset string)))
      as [_ | H]; [reflexivity |].
    exfalso. apply H. apply elem_of_singleton. reflexivity.
Qed.

(** ** active members and the health check *)

Lemma open_unpaused_not_dropped (now : Time) (c : Connection) :
  isClosed c = false -> isPaused c = false -> shouldDrop now c = false.
Proof. intros Hc Hp. unfold shouldDrop. rewrite Hc, Hp. reflexivity. Qed.

(** X23.  A health-check pass does not disturb an active connection: a
    connection that is open and not paused is exactly as it was after
    the pass (no ping, no close), and its membership is unchanged. *)
Theorem health_check_leaves_active_connections_alone
  (clock : ptr -> Time) (up taken : ptr -> bool) (w : World) (p : ptr) :
  isClosed (heap w p) = false -> isPaused (heap w p) = false ->
  heap (checkConnectionHealth clock up taken w) p = heap w p /\
  connections (checkConnectionHealth clock up taken w) !! p
  = connections w !! p.
Proof.
  intros Hc Hp. split; [| apply checkConnectionHealth_keeps_open, Hc].
  pose proof (open_unpaused_not_dropped (clock p) _ Hc Hp) as Hd.
  unfold checkConnectionHealth. simpl.
  set (s0 := {| sw_conns := connections w; sw_heap := heap w; sw_drop := [] |}).
  rewrite drop_batch_other; simpl.
  - destruct (decide (p ∈ keys (connections w))) as [Hin | Hin].
    + rewrite health_sweep_heap_visit by (auto using NoDup_keys).
      unfold health_visit, IsClosed, IsPaused. simpl.
      rewrite Hc, Hd, Hp. reflexivity.
    + apply (health_sweep_heap_other clock up _ s0 p Hin).
  - left. intros H.
    apply (health_sweep_drop clock up _ s0 p (NoDup_keys _)) in H
      as [H | [_ H]].
    + inversion H.
    + unfold health_queues, IsClosed, IsPaused in H. simpl in H.
      rewrite Hc, Hd, Hp in H. discriminate.
Qed.

Lemma health_check_leaves_active_connections_alone_witness :
  isClosed (heap queued_world 1%positive) = false /\
  isPaused (heap queued_world 1%positive) = false /\
  heap (checkConnectionHealth (at_time (60 * Second)) never never queued_world)
    1%positive = one_queued /\
  connections
    (checkConnectionHealth (at_time (60 * Second)) never never queued_world)
    !! 1%positive = Some true.
Proof.
  split; [reflexivity |]. split; [reflexivity |].
  apply (health_check_leaves_active_connections_alone
           (at_time (60 * Second)) never never queued_world 1%positive
           eq_refl eq_refl).
Defined.

(** ** pause, broadcast, resume, broadcast *)

Lemma dispatch_pause_resume (paused : bool) (now : Time) (up : bool)
  (c : Connection) :
  isClosed c = false ->
  let m := if paused then pauseMessage else resumeMessage in
  isClosed (dispatch m now up c) = false /\
  isPaused (dispatch m now up c) = paused /\
  channel (dispatch m now up c) = channel c.
Proof.
  intros Hc. unfold dispatch, SetPaused.
  destruct paused; simpl; rewrite Hc; simpl; auto.
Qed.

(** A broadcast and the first call of the goroutine it starts for a
    paused member: the goroutine returns and the store is as before. *)
Lemma broadcast_skips_paused
  (logEntry : WebSocketMessage) (taken : ptr -> bool) (w : World) (p : ptr)
  (t : Time) :
  p ∈ dom (connections w) ->
  isClosed (heap w p) = false -> isPaused (heap w p) = true ->
  exists i w',
    run [EvBroadcast logEntry taken; EvDeliver i t] w = Some w' /\
    (forall q, heap w' q = heap w q) /\
    connections w' !! p = connections w !! p.
Proof.
  intros Hin Hc Hp.
  assert (p ∈ open_keys w) as Hopen by (apply elem_of_open_keys; auto).
  apply list_elem_of_lookup_1 in Hopen as [j Hj].
  set (wb := broadcast logEntry taken w).
  assert (deliveries wb !! (length (deliveries w) + j)%nat
          = Some (spawn logEntry p)) as Hd.
  { subst wb. rewrite broadcast_deliveries, lookup_app_r by lia.
    replace (length (deliveries w) + j - length (deliveries w))%nat with j
      by lia.
    apply map_lookup_Some, Hj. }
  assert (IsPaused (heap wb (d_conn (spawn logEntry p))) = true) as Hp'.
  { simpl. unfold IsPaused. subst wb. rewrite broadcast_heap. exact Hp. }
  pose proof (delivery_skips_paused wb _ (spawn logEntry p) t Hd eq_refl Hp')
    as Hs.
  exists (length (deliveries w) + j)%nat.
  eexists. split.
  - unfold run. change (step (EvBroadcast logEntry taken) w) with (Some wb).
    cbv beta iota. rewrite Hs. reflexivity.
  - cbn [heap connections]. split; [intros q; apply broadcast_heap |].
    subst wb.
    rewrite (step_connections (EvBroadcast logEntry taken) w _ p eq_refl).
    cbn [registers unregisters]. unfold IsClosed. rewrite Hc. reflexivity.
Qed.

(** ** one goroutine through an execution *)

(** A step that is not a call of the goroutine at index [i] leaves that
    goroutine as it is, at its shifted index. *)
Lemma step_keeps_goroutine (e : event) (w w' : World) (i : nat)
  (d : delivery) :
  steps_goroutine e i = false -> step e w = Some w' ->
  deliveries w !! i = Some d ->
  deliveries w' !! shift e w i = Some d.
Proof.
  intros Hns Hstep Hd. destruct e; cbn [shift steps_goroutine step] in *.
  - injection Hstep as <-. exact Hd.
  - injection Hstep as <-. exact Hd.
  - injection Hstep as <-. exact Hd.
  - injection Hstep as <-. rewrite broadcast_deliveries.
    rewrite lookup_app_l by (eapply lookup_lt_Some; exact Hd). exact Hd.
  - apply bool_decide_eq_false in Hns.
    destruct (deliveries w !! i0) as [d0 |] eqn:E0.
    + destruct (delivery_step now d0 (heap w)) as [[h [d' |]] |];
        try discriminate; injection Hstep as <-; cbn [deliveries].
      * rewrite list_lookup_insert_ne by exact Hns. exact Hd.
      * destruct (Nat.ltb_spec i0 i).
        -- rewrite list_lookup_delete_ge by lia.
           replace (S (pred i)) with i by lia. exact Hd.
        -- rewrite list_lookup_delete_lt by lia. exact Hd.
    + injection Hstep as <-. exact Hd.
  - destruct (conn_step op (heap w p)); [| discriminate].
    injection Hstep as <-. exact Hd.
Qed.

Lemma follow_keeps_goroutine (es : list event) (w w1 : World) (i i1 : nat)
  (d : delivery) :
  follow es w i = Some (w1, i1) -> deliveries w !! i = Some d ->
  deliveries w1 !! i1 = Some d.
Proof.
  revert w i. induction es as [| e es IH]; intros w i Hf Hd; simpl in Hf.
  - injection Hf as <- <-. exact Hd.
  - destruct (steps_goroutine e i) eqn:Hs; [discriminate |].
    destruct (step e w) as [w' |] eqn:E; [| discriminate].
    apply (IH w' (shift e w i) Hf).
    apply (step_keeps_goroutine e w w' i d Hs E Hd).
Qed.

Lemma map_lookup_inv {A B : Type} (f : A -> B) (l : list A) (i : nat) (y : B) :
  map f l !! i = Some y -> exists x, l !! i = Some x /\ y = f x.
Proof.
  revert i. induction l as [| a l IH]; intros [| i] H; simpl in *;
    try discriminate.
  - injection H as <-. eauto.
  - apply IH, H.
Qed.

(** A goroutine that a broadcast starts is [spawn logEntry p] for a member
    [p] that the broadcast finds open, at the place of [p] among the open
    members. *)
Lemma started_by_spawn (logEntry : WebSocketMessage) (taken : ptr -> bool)
  (w : World) (i : nat) (d : delivery) :
  started_by logEntry taken w i d ->
  d = spawn logEntry (d_conn d) /\
  open_keys w !! (i - length (deliveries w))%nat = Some (d_conn d).
Proof.
  intros [Hi Hd]. rewrite broadcast_deliveries, lookup_app_r in Hd by exact Hi.
  apply map_lookup_inv in Hd as (p & Hp & ->). simpl. auto.
Qed.

(** The first and the second call of a delivery goroutine. *)
Lemma first_call (w : World) (i : nat) (d : delivery) (now : Time) :
  deliveries w !! i = Some d -> d_pc d = AtIsPaused ->
  step (EvDeliver i now) w
  = Some (if IsPaused (heap w (d_conn d))
          then with_deliveries (delete i (deliveries w)) w
          else with_deliveries (<[i := at_pc AtShouldDrop d]> (deliveries w)) w).
Proof.
  intros Hd Hpc. cbn [step]. rewrite Hd. unfold delivery_step. rewrite Hpc.
  destruct (IsPaused (heap w (d_conn d))); reflexivity.
Qed.

Lemma second_call (w : World) (i : nat) (d : delivery) (now : Time) :
  deliveries w !! i = Some d -> d_pc d = AtShouldDrop ->
  step (EvDeliver i now) w
  = Some (if shouldDrop now (heap w (d_conn d))
          then with_deliveries (delete i (deliveries w)) w
          else with_deliveries (<[i := at_pc AtSendLog d]> (deliveries w)) w).
Proof.
  intros Hd Hpc. cbn [step]. rewrite Hd. unfold delivery_step. rewrite Hpc.
  destruct (shouldDrop now (heap w (d_conn d))); reflexivity.
Qed.

(** The life of a goroutine that a broadcast starts, under every
    interleaving with the rest of the program. *)
Lemma started_goroutine_tests_before_sending
  (logEntry : WebSocketMessage) (taken : ptr -> bool) (w : World) (i : nat)
  (d : delivery) (es : list event) (w1 : World) (i1 : nat) (now : Time) :
  started_by logEntry taken w i d ->
  follow es (broadcast logEntry taken w) i = Some (w1, i1) ->
  d_msg d = logEntry /\
  d_conn d ∈ dom (connections w) /\
  step (EvDeliver i1 now) w1
  = Some (if IsPaused (heap w1 (d_conn d))
          then with_deliveries (delete i1 (deliveries w1)) w1
          else with_deliveries
                 (<[i1 := at_pc AtShouldDrop d]> (deliveries w1)) w1) /\
  forall es2 w2 i2 now2,
    follow es2
      (with_deliveries (<[i1 := at_pc AtShouldDrop d]> (deliveries w1)) w1) i1
    = Some (w2, i2) ->
    step (EvDeliver i2 now2) w2
    = Some (if shouldDrop now2 (heap w2 (d_conn d))
            then with_deliveries (delete i2 (deliveries w2)) w2
            else with_deliveries
                   (<[i2 := at_pc AtSendLog d]> (deliveries w2)) w2).
Proof.
  intros Hst Hf.
  destruct (started_by_spawn logEntry taken w i d Hst) as [Hd Hk].
  pose proof (follow_keeps_goroutine es _ w1 i i1 d Hf (proj2 Hst)) as Hd1.
  split; [rewrite Hd; reflexivity |]. split.
  { apply (elem_of_open_keys w). apply list_elem_of_lookup. eauto. }
  split.
  { apply first_call; [exact Hd1 | rewrite Hd; reflexivity]. }
  intros es2 w2 i2 now2 Hf2.
  assert (deliveries w2 !! i2 = Some (at_pc AtShouldDrop d)) as Hd2.
  { apply (follow_keeps_goroutine es2 _ w2 i1 i2 _ Hf2).
    cbn [with_deliveries deliveries].
    apply list_lookup_insert_eq. eapply lookup_lt_Some. exact Hd1. }
  exact (second_call w2 i2 (at_pc AtShouldDrop d) now2 Hd2 eq_refl).
Qed.

(** ** what adds a message to a queue *)

Lemma conn_step_remainder (op : conn_op) (c c' : Connection) :
  conn_step op c = Some c' ->
  match op with
  | OpSendLog _ _ => True
  | _ => remainder_of (buf (channel c')) (buf (channel c))
  end.
Proof.
  intros Hstep. destruct op; simpl in Hstep; [| exact I | | | |];
    injection Hstep as <-.
  - apply Close_remainder.
  - unfold SetPaused. destruct (isClosed c); simpl; auto with conn.
  - destruct (SendPing_frame up c) as (_ & _ & -> & _). auto with conn.
  - simpl. destruct (in_read r); simpl.
    + destruct (dispatch_frame message (in_now r) (in_up r) c) as [_ ->].
      auto with conn.
    + apply Close_remainder.
  - unfold Send_step, Send_exit.
    destruct (buf (channel c)) as [| m rest] eqn:Eb.
    + destruct (chan_closed (channel c)); simpl; [| rewrite Eb; auto with conn].
      rewrite <- Eb. apply (Close_remainder (with_ws _ c)).
    + simpl. destruct (WriteJSON up m (ws c)) as [w [|]]; simpl.
      * auto with conn.
      * match goal with
        | |- context [Close ?x] =>
            eapply remainder_of_trans; [apply (Close_remainder x) |]
        end.
        simpl. apply remainder_of_tail.
Qed.

(** Only a call of [sendLog] for [p] adds a message to the queue of [p]:
    after every other step the queue is what remained of it. *)
Lemma step_appends_only (e : event) (w w' : World) (p : ptr) :
  step e w = Some w' -> appends e w p = false ->
  remainder_of (buf (channel (heap w' p))) (buf (channel (heap w p))).
Proof.
  intros Hstep Happ.
  destruct (hub_event e) eqn:He.
  { apply (hub_step_closed_or_probed e w w' p He Hstep). }
  destruct e; try discriminate; cbn [step appends] in *.
  - destruct (deliveries w !! i) as [d |];
      [| injection Hstep as <-; apply remainder_of_refl].
    unfold delivery_step in Hstep. destruct (d_pc d).
    + destruct (IsPaused (heap w (d_conn d))); injection Hstep as <-;
        apply remainder_of_refl.
    + destruct (shouldDrop now (heap w (d_conn d))); injection Hstep as <-;
        apply remainder_of_refl.
    + apply bool_decide_eq_false in Happ.
      destruct (sendLog (d_msg d) now (heap w (d_conn d))); [| discriminate].
      injection Hstep as <-. cbn [heap].
      rewrite fn_lookup_insert_ne by exact Happ. apply remainder_of_refl.
  - destruct (conn_step op (heap w p0)) as [c' |] eqn:E; [| discriminate].
    injection Hstep as <-. cbn [with_heap heap].
    destruct (decide (p0 = p)) as [-> | Hne].
    + rewrite fn_lookup_insert.
      pose proof (conn_step_remainder op _ _ E) as H.
      destruct op; try exact H.
      apply bool_decide_eq_false in Happ. congruence.
    + rewrite fn_lookup_insert_ne by exact Hne. apply remainder_of_refl.
Qed.

(** ** paused connections, over executions *)

(** C6, as amended.  Over every execution: each goroutine that a
    broadcast starts is for a member, carries the broadcast message, and,
    however its calls are interleaved with the rest of the program, tests
    the paused flag at its first call and the drop predicate at its
    second; when the connection is paused at the first call, or the drop
    predicate is true at the second, the goroutine returns there and
    then, with the store untouched, and [sendLog] is not called; only a
    call of [sendLog] for a connection adds a message to its queue, and
    no select case of [Run] does.  A health-check pass sends the ping to
    every member that is open, paused and for which the drop predicate is
    false: its socket is what [SendPing] leaves, and the ping reaches the
    wire when the socket is open and the network is up. *)
Theorem paused_skips_delivery_and_live_paused_is_pinged :
  (forall logEntry taken w i d es w1 i1 now,
     started_by logEntry taken w i d ->
     follow es (broadcast logEntry taken w) i = Some (w1, i1) ->
     d_msg d = logEntry /\
     d_conn d ∈ dom (connections w) /\
     step (EvDeliver i1 now) w1
     = Some (if IsPaused (heap w1 (d_conn d))
             then with_deliveries (delete i1 (deliveries w1)) w1
             else with_deliveries
                    (<[i1 := at_pc AtShouldDrop d]> (deliveries w1)) w1) /\
     forall es2 w2 i2 now2,
       follow es2
         (with_deliveries (<[i1 := at_pc AtShouldDrop d]> (deliveries w1)) w1)
         i1 = Some (w2, i2) ->
       step (EvDeliver i2 now2) w2
       = Some (if shouldDrop now2 (heap w2 (d_conn d))
               then with_deliveries (delete i2 (deliveries w2)) w2
               else with_deliveries
                      (<[i2 := at_pc AtSendLog d]> (deliveries w2)) w2)) /\
  (forall e w w' p,
     step e w = Some w' -> appends e w p = false ->
     remainder_of (buf (channel (heap w' p))) (buf (channel (heap w p)))) /\
  (forall w i d now,
     deliveries w !! i = Some d -> d_pc d = AtIsPaused ->
     IsPaused (heap w (d_conn d)) = true ->
     exists w', step (EvDeliver i now) w = Some w' /\
                (forall p, heap w' p = heap w p) /\
                deliveries w' = delete i (deliveries w)) /\
  (forall w i d now,
     deliveries w !! i = Some d -> d_pc d = AtShouldDrop ->
     shouldDrop now (heap w (d_conn d)) = true ->
     exists w', step (EvDeliver i now) w = Some w' /\
                (forall p, heap w' p = heap w p) /\
                deliveries w' = delete i (deliveries w)) /\
  (forall e w w' p,
     hub_event e = true -> step e w = Some w' ->
     remainder_of (buf (channel (heap w' p))) (buf (channel (heap w p)))) /\
  (forall clock up taken w p,
     p ∈ dom (connections w) ->
     IsClosed (heap w p) = false ->
     shouldDrop (clock p) (heap w p) = false ->
     IsPaused (heap w p) = true ->
     ws (heap (checkConnectionHealth clock up taken w) p)
     = fst (WriteJSON (up p) pingMessage (ws (heap w p))) /\
     (up p = true -> ws_closed (ws (heap w p)) = false ->
      wire (ws (heap (checkConnectionHealth clock up taken w) p))
      = wire (ws (heap w p)) ++ [pingMessage])).
Proof.
  split; [| split; [| split; [| split; [| split]]]].
  - intros logEntry taken w i d es w1 i1 now Hst Hf.
    apply (started_goroutine_tests_before_sending
             logEntry taken w i d es w1 i1 now Hst Hf).
  - apply step_appends_only.
  - intros w i d now Hd Hpc Hp. eexists. split.
    + apply (delivery_skips_paused w i d now Hd Hpc Hp).
    + split; reflexivity.
  - intros w i d now Hd Hpc Hp. eexists. split.
    + apply (delivery_skips_dropped w i d now Hd Hpc Hp).
    + split; reflexivity.
  - intros e w w' p He Hstep.
    apply (hub_step_closed_or_probed e w w' p He Hstep).
  - intros clock up taken w p Hin Hc Hd Hp.
    apply elem_of_dom in Hin.
    rewrite (checkConnectionHealth_pings clock up taken w p Hin Hc Hd Hp).
    unfold IsClosed in Hc. unfold SendPing. rewrite Hc.
    destruct (WriteJSON (up p) pingMessage (ws (heap w p))) as [w1 ok] eqn:E.
    simpl. split; [reflexivity |].
    intros Hup Hopen. unfold WriteJSON in E. rewrite Hup, Hopen in E.
    injection E as <- _. reflexivity.
Qed.

Lemma paused_skips_delivery_and_live_paused_is_pinged_witness :
  started_by pingMessage never paused_world 1 (spawn pingMessage 1%positive) /\
  (exists w1,
     follow [EvDeliver 0 (4 * Second);
             EvConn 1%positive (OpInbound (read_of pongMessage (4 * Second)))]
       (broadcast pingMessage never paused_world) 1 = Some (w1, 0%nat) /\
     IsPaused (heap w1 1%positive) = true /\
     step (EvDeliver 0 (5 * Second)) w1
     = Some (with_deliveries (delete 0%nat (deliveries w1)) w1)) /\
  wire (ws (heap (checkConnectionHealth (at_time (5 * Second)) always never
                    paused_world) 1%positive)) = [pingMessage].
Proof.
  pose proof paused_skips_delivery_and_live_paused_is_pinged
    as (Hlife & _ & _ & _ & _ & Hping).
  assert (started_by pingMessage never paused_world 1
            (spawn pingMessage 1%positive)) as Hst.
  { split; [simpl; lia | reflexivity]. }
  split; [exact Hst |]. split.
  - eexists. split; [reflexivity |]. split; [reflexivity |].
    match goal with
    | |- step _ ?w1 = _ =>
        pose proof (Hlife pingMessage never paused_world 1%nat
                      (spawn pingMessage 1%positive)
                      [EvDeliver 0 (4 * Second);
                       EvConn 1%positive
                         (OpInbound (read_of pongMessage (4 * Second)))]
                      w1 0%nat (5 * Second) Hst eq_refl) as (_ & _ & H & _)
    end.
    exact H.
  - apply (Hping (at_time (5 * Second)) always never paused_world 1%positive).
    + apply elem_of_dom. exists true. reflexivity.
    + reflexivity.
    + reflexivity.
    + reflexivity.
    + reflexivity.
    + reflexivity.
Defined.

(** ** the liveness probe is not the only thing that moves the timestamp *)

(** C10, the counterexample.  The member at address 1 is open and not
    paused.  A broadcast starts a goroutine for it; the goroutine tests
    the paused flag and the drop predicate, both at time 0; the client's
    pause is read at time 0; the goroutine then calls [sendLog] at 9 s.
    Before that call the connection is paused, was last active at 0 and is
    due for the drop at 11 s; after it the connection is still paused and
    the client has sent nothing since 0, but the timestamp is 9 s and the
    drop predicate at 11 s is false: a message of the hub has deferred
    the drop. *)
Lemma delivery_after_pause_defers_the_drop :
  option_map
    (fun w => (isPaused (heap w 1%positive), lastSent (heap w 1%positive),
               shouldDrop (11 * Second) (heap w 1%positive)))
    (run [EvBroadcast logMessage never; EvDeliver 0 0; EvDeliver 0 0;
          EvConn 1%positive (OpInbound (read_of pauseMessage 0))]
       fresh_world)
  = Some (true, 0, true) /\
  option_map
    (fun w => (isPaused (heap w 1%positive), lastSent (heap w 1%positive),
               shouldDrop (11 * Second) (heap w 1%positive)))
    (run [EvBroadcast logMessage never; EvDeliver 0 0; EvDeliver 0 0;
          EvConn 1%positive (OpInbound (read_of pauseMessage 0));
          EvDeliver 0 (9 * Second)]
       fresh_world)
  = Some (true, 9 * Second, false).
Proof. split; vm_compute; reflexivity. Qed.

(** ** pause, broadcast, resume, broadcast *)

Lemma started_by_exists (logEntry : WebSocketMessage) (taken : ptr -> bool)
  (w : World) (p : ptr) :
  p ∈ dom (connections w) -> isClosed (heap w p) = false ->
  exists i, started_by logEntry taken w i (spawn logEntry p).
Proof.
  intros Hin Hc.
  assert (p ∈ open_keys w) as Hopen by (apply elem_of_open_keys; auto).
  apply list_elem_of_lookup_1 in Hopen as [j Hj].
  exists (length (deliveries w) + j)%nat. split; [lia |].
  rewrite broadcast_deliveries, lookup_app_r by lia.
  replace (length (deliveries w) + j - length (deliveries w))%nat with j
    by lia.
  apply map_lookup_Some, Hj.
Qed.

(** A broadcast starts one goroutine for a member: once that goroutine
    has returned, none of the goroutines the broadcast started is for
    it. *)
Lemma started_by_only_one (logEntry : WebSocketMessage) (taken : ptr -> bool)
  (w : World) (p : ptr) (i k : nat) :
  started_by logEntry taken w i (spawn logEntry p) ->
  (length (deliveries w) <= k)%nat ->
  delete i (deliveries (broadcast logEntry taken w)) !! k
  <> Some (spawn logEntry p).
Proof.
  intros Hst Hk Hlook.
  destruct (started_by_spawn logEntry taken w i _ Hst) as [_ Hi].
  simpl in Hi. destruct Hst as [Hle _].
  assert (exists k', k' <> (i - length (deliveries w))%nat /\
                     open_keys w !! k' = Some p) as (k' & Hne & Hk').
  { rewrite broadcast_deliveries in Hlook.
    destruct (Nat.lt_ge_cases k i) as [Hlt | Hge].
    - rewrite list_lookup_delete_lt, lookup_app_r in Hlook by lia.
      apply map_lookup_inv in Hlook as (q & Hq & E).
      injection E as <-. exists (k - length (deliveries w))%nat.
      split; [lia | exact Hq].
    - rewrite list_lookup_delete_ge, lookup_app_r in Hlook by lia.
      apply map_lookup_inv in Hlook as (q & Hq & E).
      injection E as <-. exists (S k - length (deliveries w))%nat.
      split; [lia | exact Hq]. }
  apply Hne. apply (NoDup_lookup _ _ _ _ (NoDup_open_keys w) Hk' Hi).
Qed.

Lemma after_read_pause_resume (paused : bool) (p : ptr) (now : Time)
  (up : bool) (w : World) :
  isClosed (heap w p) = false ->
  let m := if paused then pauseMessage else resumeMessage in
  step (EvConn p (OpInbound {| in_read := ReadOk m; in_now := now;
                               in_up := up |})) w
  = Some (after_read p m now up w) /\
  isClosed (heap (after_read p m now up w) p) = false /\
  isPaused (heap (after_read p m now up w) p) = paused /\
  channel (heap (after_read p m now up w) p) = channel (heap w p) /\
  connections (after_read p m now up w) = connections w /\
  deliveries (after_read p m now up w) = deliveries w.
Proof.
  intros Hc m. split; [reflexivity |].
  unfold after_read. cbn [with_heap heap connections deliveries].
  rewrite fn_lookup_insert.
  destruct (dispatch_pause_resume paused now up (heap w p) Hc) as (H1 & H2 & H3).
  auto 6.
Qed.

(** X24.  End to end.  A member reads a pause envelope and a broadcast is
    made.  The broadcast starts a goroutine for the member; for every
    index at which that goroutine is, its call returns with every
    connection untouched, and afterwards none of the goroutines that the
    broadcast started is for the member: the message is not delivered and
    cannot be delivered later.  The member then reads a resume envelope
    and a second broadcast is made; it starts a goroutine for the member,
    and for every index at which that goroutine is, its three calls leave
    the member's queue equal to the queue before all this followed by the
    second message only, the member open and not paused. *)
Theorem paused_member_misses_broadcast_and_resumed_member_gets_next
  (w : World) (p : ptr) (m1 m2 : WebSocketMessage) (taken1 taken2 : ptr -> bool)
  (t0 t1 t2 t3 t4 t5 : Time) (up0 up2 : bool) :
  p ∈ dom (connections w) ->
  conn_ok (heap w p) ->
  isClosed (heap w p) = false ->
  (length (buf (channel (heap w p))) < cap (channel (heap w p)))%nat ->
  (exists i, started_by m1 taken1 (after_read p pauseMessage t0 up0 w) i
               (spawn m1 p)) /\
  forall i,
    started_by m1 taken1 (after_read p pauseMessage t0 up0 w) i (spawn m1 p) ->
    let w3 :=
      with_deliveries
        (delete i (deliveries
                     (broadcast m1 taken1 (after_read p pauseMessage t0 up0 w))))
        (broadcast m1 taken1 (after_read p pauseMessage t0 up0 w)) in
    run [EvConn p (OpInbound {| in_read := ReadOk pauseMessage;
                                in_now := t0; in_up := up0 |});
         EvBroadcast m1 taken1; EvDeliver i t1] w = Some w3 /\
    (forall q, heap w3 q = heap (after_read p pauseMessage t0 up0 w) q) /\
    (forall k, (length (deliveries w) <= k)%nat ->
               deliveries w3 !! k <> Some (spawn m1 p)) /\
    (exists j, started_by m2 taken2 (after_read p resumeMessage t2 up2 w3) j
                 (spawn m2 p)) /\
    forall j,
      started_by m2 taken2 (after_read p resumeMessage t2 up2 w3) j
        (spawn m2 p) ->
      exists w5,
        run [EvConn p (OpInbound {| in_read := ReadOk pauseMessage;
                                    in_now := t0; in_up := up0 |});
             EvBroadcast m1 taken1; EvDeliver i t1;
             EvConn p (OpInbound {| in_read := ReadOk resumeMessage;
                                    in_now := t2; in_up := up2 |});
             EvBroadcast m2 taken2;
             EvDeliver j t3; EvDeliver j t4; EvDeliver j t5] w = Some w5 /\
        buf (channel (heap w5 p)) = buf (channel (heap w p)) ++ [m2] /\
        isPaused (heap w5 p) = false /\
        isClosed (heap w5 p) = false.
Proof.
  intros Hin Hok Hc Hroom.
  destruct (after_read_pause_resume true p t0 up0 w Hc)
    as (S1 & A1 & A2 & A3 & A4 & A5).
  cbv zeta in S1, A1, A2, A3, A4, A5.
  set (w1 := after_read p pauseMessage t0 up0 w) in *.
  assert (p ∈ dom (connections w1)) as Hin1 by (rewrite A4; exact Hin).
  split; [apply started_by_exists; assumption |].
  intros i Hst. set (wb1 := broadcast m1 taken1 w1).
  intros w3.
  assert (forall q, heap w3 q = heap w1 q) as Hh3
      by (intros q; apply broadcast_heap).
  assert (run [EvConn p (OpInbound {| in_read := ReadOk pauseMessage;
                                      in_now := t0; in_up := up0 |});
               EvBroadcast m1 taken1; EvDeliver i t1] w = Some w3) as Hrun3.
  { unfold run. rewrite S1.
    change (step (EvBroadcast m1 taken1) w1) with (Some wb1). cbv beta iota.
    rewrite (first_call wb1 i (spawn m1 p) t1 (proj2 Hst) eq_refl).
    cbn [spawn d_conn]. unfold IsPaused. subst wb1.
    rewrite broadcast_heap, A2. reflexivity. }
  split; [exact Hrun3 |]. split; [exact Hh3 |]. split.
  { intros k Hk. subst w3. cbn [with_deliveries deliveries].
    apply (started_by_only_one m1 taken1 w1 p i k Hst).
    rewrite A5. exact Hk. }
  assert (isClosed (heap w3 p) = false) as Hc3 by (rewrite Hh3; exact A1).
  destruct (after_read_pause_resume false p t2 up2 w3 Hc3)
    as (S4 & B1 & B2 & B3 & B4 & B5).
  cbv zeta in S4, B1, B2, B3, B4, B5.
  set (w4 := after_read p resumeMessage t2 up2 w3) in *.
  assert (channel (heap w4 p) = channel (heap w p)) as Hch4.
  { rewrite B3, Hh3. exact A3. }
  assert (p ∈ dom (connections w4)) as Hin4.
  { rewrite B4. subst w3. cbn [with_deliveries connections].
    apply elem_of_dom. subst wb1.
    rewrite (step_connections (EvBroadcast m1 taken1) w1 _ p eq_refl).
    cbn [registers unregisters]. unfold IsClosed. rewrite A1.
    apply elem_of_dom. exact Hin1. }
  split; [apply started_by_exists; assumption |].
  intros j Hst2. set (wb2 := broadcast m2 taken2 w4).
  assert (heap wb2 p = heap w4 p) as Hhb2 by apply broadcast_heap.
  destruct (delivery_runs wb2 j (spawn m2 p) t3 t4 t5 (proj2 Hst2) eq_refl)
    as (w5 & Hrun5 & _ & _ & Hheap5).
  { cbn [spawn d_conn]. rewrite Hhb2. intros H. rewrite Hch4 in H.
    specialize (Hok H). congruence. }
  { cbn [spawn d_conn]. rewrite Hhb2. exact B1. }
  { cbn [spawn d_conn]. rewrite Hhb2. exact B2. }
  { cbn [spawn d_conn]. rewrite Hhb2, Hch4. exact Hroom. }
  exists w5. split.
  - change (run ([EvConn p (OpInbound {| in_read := ReadOk pauseMessage;
                                         in_now := t0; in_up := up0 |});
                  EvBroadcast m1 taken1; EvDeliver i t1] ++
                 [EvConn p (OpInbound {| in_read := ReadOk resumeMessage;
                                         in_now := t2; in_up := up2 |});
                  EvBroadcast m2 taken2] ++
                 [EvDeliver j t3; EvDeliver j t4; EvDeliver j t5]) w
            = Some w5).
    rewrite run_app, Hrun3, run_app.
    assert (run [EvConn p (OpInbound {| in_read := ReadOk resumeMessage;
                                        in_now := t2; in_up := up2 |});
                 EvBroadcast m2 taken2] w3 = Some wb2) as ->.
    { unfold run. rewrite S4. reflexivity. }
    exact Hrun5.
  - cbn [spawn d_conn d_msg] in Hheap5. rewrite Hheap5, Hhb2.
    cbn [with_lastSent with_channel with_buf buf channel isPaused isClosed].
    rewrite Hch4. auto.
Qed.

Lemma paused_member_misses_broadcast_and_resumed_member_gets_next_witness :
  1%positive ∈ dom (connections queued_world) /\
  started_by pingMessage never
    (after_read 1%positive pauseMessage 1 true queued_world) 0
    (spawn pingMessage 1%positive) /\
  exists w3,
    run [EvConn 1%positive (OpInbound {| in_read := ReadOk pauseMessage;
                                         in_now := 1; in_up := true |});
         EvBroadcast pingMessage never; EvDeliver 0 2] queued_world
    = Some w3 /\
    deliveries w3 = [] /\
    buf (channel (heap w3 1%positive)) = [logMessage] /\
    started_by pongMessage never
      (after_read 1%positive resumeMessage 3 true w3) 0
      (spawn pongMessage 1%positive) /\
    exists w5,
      run [EvConn 1%positive (OpInbound {| in_read := ReadOk pauseMessage;
                                           in_now := 1; in_up := true |});
           EvBroadcast pingMessage never; EvDeliver 0 2;
           EvConn 1%positive (OpInbound {| in_read := ReadOk resumeMessage;
                                           in_now := 3; in_up := true |});
           EvBroadcast pongMessage never;
           EvDeliver 0 4; EvDeliver 0 5; EvDeliver 0 6] queued_world
      = Some w5 /\
      buf (channel (heap w5 1%positive)) = [logMessage; pongMessage] /\
      isPaused (heap w5 1%positive) = false /\
      isClosed (heap w5 1%positive) = false.
Proof.
  assert (1%positive ∈ dom (connections queued_world)) as Hin.
  { apply elem_of_dom. exists true. reflexivity. }
  assert (started_by pingMessage never
            (after_read 1%positive pauseMessage 1 true queued_world) 0
            (spawn pingMessage 1%positive)) as Hst.
  { split; [simpl; lia | reflexivity]. }
  assert (conn_ok (heap queued_world 1%positive)) as Hok
      by (intros H; discriminate H).
  assert (length (buf (channel (heap queued_world 1%positive)))
          < cap (channel (heap queued_world 1%positive)))%nat as Hroom
      by (simpl; lia).
  destruct (paused_member_misses_broadcast_and_resumed_member_gets_next
              queued_world 1%positive pingMessage pongMessage never never
              1 2 3 4 5 6 true true Hin Hok eq_refl Hroom) as [_ H].
  specialize (H 0%nat Hst). cbv zeta in H.
  destruct H as (H1 & _ & _ & _ & H2).
  split; [exact Hin |]. split; [exact Hst |].
  eexists. split; [exact H1 |]. split; [reflexivity |].
  split; [reflexivity |].
  assert (started_by pongMessage never
            (after_read 1%positive resumeMessage 3 true
               (with_deliveries
                  (delete 0%nat
                     (deliveries
                        (broadcast pingMessage never
                           (after_read 1%positive pauseMessage 1 true
                              queued_world))))
                  (broadcast pingMessage never
                     (after_read 1%positive pauseMessage 1 true queued_world))))
            0 (spawn pongMessage 1%positive)) as Hst2.
  { split; [vm_compute; lia | reflexivity]. }
  split; [exact Hst2 |].
  apply (H2 0%nat Hst2).
Defined.
